(** * ZBProxy management API: nested-path accessor and process supervisor

    A shallow embedding of [main.py]: the two path functions
    [get_nested_value] and [set_nested_value] that read and write one field
    of the JSON configuration, and the lifecycle endpoints [get_status],
    [start_zbproxy], [stop_zbproxy] and [restart_zbproxy] together with the
    process scan [find_zbproxy_process]. *)

From stdpp Require Import gmap strings list.
From Stdlib Require Import ZArith NArith Ascii String.

Set Warnings "-register-all".
Open Scope string_scope.
Open Scope list_scope.

(** ** Part I: the nested-path accessor *)

Module PathAccessor.

(** What [json.load] builds: [None], [bool], [int], [float], [str],
    [list] and [dict] with string keys.  Only [isinstance(_, list)],
    [isinstance(_, dict)], [len], [in] and subscripting are used by the
    path functions, so a scalar is carried as it is; a [float] is the 64
    bits of its double. *)
Inductive value : Type :=
  | JNull
  | JBool (b : bool)
  | JInt (z : Z)
  | JFloat (bits : Z)
  | JStr (s : string)
  | JList (l : list value)
  | JDict (d : gmap string value).

Definition is_scalar (x : value) : bool :=
  match x with
  | JList _ | JDict _ => false
  | _ => true
  end.

(** The three [HTTPException(status_code=400, detail=...)] raised by the
    path functions, told apart by their detail text:
    - "无效的数组索引: {key}"   (invalid array index),
    - "路径不存在: {path}"      (path does not exist),
    - "无法设置值到路径: {path}" (cannot set a value at the path). *)
Inductive PathError : Type :=
  | InvalidIndex (key : N)
  | PathNotFound (path : string)
  | InvalidTarget (path : string).

Inductive except (A : Type) : Type :=
  | Ok (a : A)
  | Raise (e : PathError).
Arguments Ok {A} a.
Arguments Raise {A} e.

(** *** Strings: [str.split('.')], [str.isdigit], [int] *)

(** [path.split('.')]: the pieces between the dots; never the empty list,
    the empty string gives one empty piece. *)
Fixpoint split (path : string) : list string :=
  match path with
  | EmptyString => [""]
  | String c rest =>
      if Ascii.eqb c "." then "" :: split rest
      else match split rest with
           | piece :: pieces => String c piece :: pieces
           | [] => [String c ""]
           end
  end.

Definition is_digit_char (c : ascii) : bool :=
  ((48 <=? N_of_ascii c) && (N_of_ascii c <=? 57))%N.

Fixpoint all_digits (s : string) : bool :=
  match s with
  | EmptyString => true
  | String c rest => is_digit_char c && all_digits rest
  end.

(** [key.isdigit()]: at least one character, all of them digits.  Keys are
    byte strings here, so the digits are the ASCII ones: this is
    [str.isdigit] on the keys of ASCII characters ([all_ascii] below).
    Python's test also holds of the other digits of Unicode. *)
Definition isdigit (key : string) : bool :=
  match key with
  | EmptyString => false
  | _ => all_digits key
  end.

Fixpoint int_from (acc : N) (s : string) : N :=
  match s with
  | EmptyString => acc
  | String c rest => int_from (10 * acc + (N_of_ascii c - 48))%N rest
  end.

(** [int(key)] on a string of ASCII digits (leading zeros allowed).  This
    is Python's [int] on the strings of at most [MAX_STR_DIGITS] digits;
    on a longer one, and on a digit that is no decimal digit, Python's
    [int] raises [ValueError], which is not among the outcomes here. *)
Definition int (key : string) : N := int_from 0 key.

(** *** The keys the model is exact on

    [isdigit] and [int] above are the code's [key.isdigit()] and
    [int(key)] on the keys that hold ASCII characters only and, when they
    are numeric, no more digits than [int] converts (4300, the default of
    [sys.set_int_max_str_digits]).  [plain_path] says so of every key of
    a path. *)

Definition ascii_char (c : ascii) : bool := (N_of_ascii c <? 128)%N.

Fixpoint all_ascii (s : string) : bool :=
  match s with
  | EmptyString => true
  | String c rest => ascii_char c && all_ascii rest
  end.

Definition MAX_STR_DIGITS : nat := 4300.

Definition plain_key (key : string) : bool :=
  all_ascii key
  && (negb (isdigit key) || (String.length key <=? MAX_STR_DIGITS)%nat).

Definition plain_path (path : string) : bool := forallb plain_key (split path).

(** *** Reading: [get_nested_value] *)

(** One turn of the loop [for key in keys]: the item of [current] that
    [key] selects, or the exception of the [else] branches.  The same body
    stands in both path functions. *)
Definition subscript (path key : string) (current : value) : except value :=
  if isdigit key then
    let key := int key in
    match current with
    | JList l =>
        match l !! N.to_nat key with      (* 0 <= key < len(current) *)
        | Some item => Ok item
        | None => Raise (InvalidIndex key)
        end
    | _ => Raise (InvalidIndex key)
    end
  else
    match current with
    | JDict d =>
        match d !! key with               (* key in current *)
        | Some item => Ok item
        | None => Raise (PathNotFound path)
        end
    | _ => Raise (PathNotFound path)
    end.

Fixpoint get_loop (path : string) (keys : list string) (current : value)
  : except value :=
  match keys with
  | [] => Ok current
  | key :: keys' =>
      match subscript path key current with
      | Ok item => get_loop path keys' item
      | Raise e => Raise e
      end
  end.

Definition get_nested_value (data : value) (path : string) : except value :=
  get_loop path (split path) data.

(** *** Writing in place: [set_nested_value]

    [set_nested_value] returns nothing and changes [data] itself, through
    the reference [current] that the loop moves down the document.  The
    state of the call is therefore the document together with the place
    [current] points at: the node under [current], and above it the nodes
    the loop came through, nearest first, each with the key that was
    taken. *)

Inductive segment : Type :=
  | Idx (i : N)
  | Key (k : string).

#[global] Instance segment_eq_dec : EqDecision segment.
Proof. solve_decision. Defined.

Definition segment_of (key : string) : segment :=
  if isdigit key then Idx (int key) else Key key.

Record frame : Type := Frame { parent : value; taken : segment }.

Record store : Type := Store { above : list frame; current : value }.

(** The parent node with [child] standing where the key was taken. *)
Definition fill (f : frame) (child : value) : value :=
  match parent f, taken f with
  | JList l, Idx i => JList (<[N.to_nat i := child]> l)
  | JDict d, Key k => JDict (<[k := child]> d)
  | p, _ => p
  end.

Definition plug (fs : list frame) (node : value) : value :=
  fold_left (fun child f => fill f child) fs node.

(** The whole document that [data] refers to. *)
Definition document (s : store) : value := plug (above s) (current s).

Definition M (A : Type) : Type := store -> store * except A.

Definition ret {A} (a : A) : M A := fun s => (s, Ok a).

Definition bind {A B} (m : M A) (k : A -> M B) : M B :=
  fun s =>
    match m s with
    | (s', Ok a) => k a s'
    | (s', Raise e) => (s', Raise e)
    end.

Definition raise {A} (e : PathError) : M A := fun s => (s, Raise e).

Definition lift {A} (r : except A) : M A := fun s => (s, r).

Notation "'let!' x ':=' m 'in' k" := (bind m (fun x => k))
  (at level 10, x name, m at level 100, k at level 200).
Notation "'do!' m 'in' k" := (bind m (fun _ => k))
  (at level 10, m at level 100, k at level 200).

(** Reading the node under [current]. *)
Definition read_current : M value := fun s => (s, Ok (current s)).

(** [current = current[key]]: the reference moves to an item. *)
Definition move_to (key : segment) (item : value) : M unit :=
  fun s => (Store (Frame (current s) key :: above s) item, Ok tt).

(** [current[last_key] = value]: the node under [current] is changed. *)
Definition write_current (node : value) : M unit :=
  fun s => (Store (above s) node, Ok tt).

(** [for i, key in enumerate(keys[:-1])]. *)
Fixpoint set_loop (path : string) (keys : list string) : M unit :=
  match keys with
  | [] => ret tt
  | key :: keys' =>
      let! node := read_current in
      let! item := lift (subscript path key node) in
      do! move_to (segment_of key) item in
      set_loop path keys'
  end.

(** The statements after the loop, on [last_key = keys[-1]]. *)
Definition set_last (path last_key : string) (v : value) : M unit :=
  let! node := read_current in
  if isdigit last_key then
    let last_key := int last_key in
    match node with
    | JList l =>
        match l !! N.to_nat last_key with  (* 0 <= last_key < len(current) *)
        | Some _ => write_current (JList (<[N.to_nat last_key := v]> l))
        | None => raise (InvalidIndex last_key)
        end
    | _ => raise (InvalidIndex last_key)
    end
  else
    match node with
    | JDict d => write_current (JDict (<[last_key := v]> d))
    | _ => raise (InvalidTarget path)
    end.

Definition set_body (path : string) (v : value) : M unit :=
  let keys := split path in
  do! set_loop path (removelast keys) in
  set_last path (List.last keys "") v.

(** The call [set_nested_value(data, path, value)]: the document [data]
    refers to when the call is over, and how the call ended. *)
Definition set_nested_value (data : value) (path : string) (v : value)
  : value * except unit :=
  let '(s, r) := set_body path v (Store [] data) in (document s, r).

(** Two key lists part ways: at the first place where they select
    different items ([segment_of] differs) both still have a key. *)
Fixpoint diverges (keys keys' : list string) : bool :=
  match keys, keys' with
  | a :: rest, b :: rest' =>
      if bool_decide (segment_of a = segment_of b)
      then diverges rest rest'
      else true
  | _, _ => false
  end.

(** *** Documents of the configuration file used below *)

Definition services_doc : value :=
  JDict {[ "Services" := JList [JDict {[ "Listen" := JInt 25565 ]}] ]}.

Definition no_services_doc : value :=
  JDict {[ "Services" := JList [] ]}.

Definition log_doc : value :=
  JDict {[ "Log" := JDict {[ "Level" := JStr "info"; "Colorful" := JBool true ]};
           "Services" := JList [] ]}.

End PathAccessor.

(** ** Part II: the process supervisor *)

Module Supervisor.

Definition ZBPROXY_EXECUTABLE : string := "ZBProxy-linux-amd64-v1".

(** *** Strings: [str.lower] and [in] *)

Definition lower_char (c : ascii) : ascii :=
  let n := N_of_ascii c in
  if ((65 <=? n) && (n <=? 90))%N then ascii_of_N (n + 32) else c.

Fixpoint lower (s : string) : string :=
  match s with
  | EmptyString => EmptyString
  | String c rest => String (lower_char c) (lower rest)
  end.

(** [needle in hay] on strings. *)
Fixpoint contains (needle hay : string) : bool :=
  String.prefix needle hay
  || match hay with
     | EmptyString => false
     | String _ rest => contains needle rest
     end.

(** *** The host as the endpoints see it *)

(** An entry of [psutil.process_iter(['pid', 'name', 'cmdline'])]; [name]
    is [None] where psutil could not read it. *)
Record process : Type := Process { pid : nat; name : option string }.

(** The [subprocess.Popen] object kept in the global [zbproxy_process]. *)
Record Popen : Type := MkPopen { popen_pid : nat }.

Record world : Type := World {
  zbproxy_process : option Popen;   (* the global; None at import *)
  processes : list process;         (* the running processes, in scan order *)
  executable : option Z             (* st_mode of ZBPROXY_EXECUTABLE, None
                                       when os.path.exists is False *)
}.

Definition set_tracked (t : option Popen) (w : world) : world :=
  World t (processes w) (executable w).

Definition set_processes (ps : list process) (w : world) : world :=
  World (zbproxy_process w) ps (executable w).

Definition set_executable (m : option Z) (w : world) : world :=
  World (zbproxy_process w) (processes w) m.

Definition running (w : world) (p : nat) : bool :=
  bool_decide (p ∈ pid <$> processes w).

(** [zbproxy_process and zbproxy_process.poll() is None]: the tracked
    object when its child has not exited. *)
Definition tracked_alive (w : world) : option Popen :=
  match zbproxy_process w with
  | Some child => if running w (popen_pid child) then Some child else None
  | None => None
  end.

Definition remove_process (p : nat) (ps : list process) : list process :=
  filter (fun q => pid q ≠ p) ps.

Fixpoint scan (procs : list process) : option process :=
  match procs with
  | [] => None
  | proc :: rest =>
      match name proc with
      | Some n =>
          if negb (String.eqb n "")
             && contains (lower ZBPROXY_EXECUTABLE) (lower n)
          then Some proc
          else scan rest
      | None => scan rest
      end
  end.

(** [find_zbproxy_process()]: the first process of the scan whose name
    contains the executable's name, letter case apart. *)
Definition find_zbproxy_process (w : world) : option process :=
  scan (processes w).

(** *** Results *)

(** The "message" texts of the returned dictionaries. *)
Inductive message : Type :=
  | MsgRunning                     (* "ZBProxy正在运行" *)
  | MsgRunningExternal             (* "ZBProxy正在运行（外部启动）" *)
  | MsgNotRunning                  (* "ZBProxy未运行" *)
  | MsgAlreadyRunning              (* "ZBProxy已在运行" *)
  | MsgAlreadyRunningPid (p : nat) (* "ZBProxy已在运行（PID: {p}）" *)
  | MsgStarted                     (* "ZBProxy启动成功" *)
  | MsgStopped (pids : list nat)   (* "ZBProxy已停止 (PID: {pids})" *)
  | MsgWasNotRunning               (* "ZBProxy未在运行" *)
  | MsgRestarted                   (* "ZBProxy重启成功" *)
  | MsgRestartFailed (m : message) (* "重启失败: {m}" *).

Inductive run_status : Type := running_status | stopped_status.

(** A returned dictionary: "success", "status", "pid" and "message"; a key
    the endpoint leaves out is [None]. *)
Record response : Type := Response {
  success : bool;
  status : option run_status;
  res_pid : option nat;
  res_message : message
}.

(** The "detail" texts of the [HTTPException]s of [start_zbproxy]. *)
Inductive detail : Type :=
  | ExecutableNotFound             (* 404 "ZBProxy可执行文件未找到: ..." *)
  | LaunchFailed                   (* 500 "ZBProxy启动失败" *)
  | NotFoundOrNotExecutable        (* 404 "...未找到或无法执行..." *)
  | NoPermission                   (* 403 "没有权限执行ZBProxy..." *)
  | StartError (cause : option detail). (* 500 "启动ZBProxy时出错: {e}" *)

Inductive exn : Type :=
  | HTTPException (status_code : nat) (d : detail)
  | NoSuchProcess.                 (* psutil.NoSuchProcess, not caught *)

Inductive outcome (A : Type) : Type :=
  | Return (a : A)
  | Raised (e : exn).
Arguments Return {A} a.
Arguments Raised {A} e.

(** *** What the host answers during one call *)

(** The [try] block of [start_zbproxy]: [open], [Popen], and [poll()]
    after [time.sleep(1)]. *)
Inductive spawn_result : Type :=
  | SpawnFileNotFound              (* FileNotFoundError *)
  | SpawnPermissionError           (* PermissionError *)
  | SpawnOtherError                (* any other Exception *)
  | Spawned (child : nat) (alive_after_wait : bool).

Record start_host : Type := StartHost {
  chmod_ok : bool;                 (* os.chmod returns, or raises *)
  spawn : spawn_result
}.

Inductive terminate_result : Type :=
  | TerminateReturns
  | TerminateNoSuchProcess
  | TerminateAccessDenied.

Record stop_host : Type := StopHost {
  send_signal_ok : bool;           (* zbproxy_process.send_signal(SIGTERM) *)
  wait_ok : bool;                  (* zbproxy_process.wait(timeout=5) in time *)
  kill_ok : bool;                  (* zbproxy_process.kill() *)
  proc_terminate : terminate_result; (* proc.terminate() *)
  proc_wait_ok : bool;             (* proc.wait(timeout=5) in time *)
  proc_kill_ok : bool;             (* proc.kill() *)
  proc_killed_gone : bool          (* the killed process, which nothing
                                      waits for, has left the process
                                      table when the call returns *)
}.

(** *** [get_status] *)

Definition get_status (w : world) : world * response :=
  match tracked_alive w with
  | Some child =>
      (w, Response true (Some running_status) (Some (popen_pid child)) MsgRunning)
  | None =>
      match find_zbproxy_process w with
      | Some proc =>
          (set_tracked None w,
           Response true (Some running_status) (Some (pid proc)) MsgRunningExternal)
      | None =>
          (set_tracked None w,
           Response true (Some stopped_status) None MsgNotRunning)
      end
  end.

(** *** [start_zbproxy] *)

(** The permission repair: [os.chmod(exe, mode | 0o755)] when no execute
    bit ([0o111]) is set; an exception there is only printed. *)
Definition ensure_executable (os : start_host) (mode : Z) : Z :=
  if Z.eqb (Z.land mode 73) 0
  then (if chmod_ok os then Z.lor mode 493 else mode)
  else mode.

Definition start_zbproxy (os : start_host) (w : world) : world * outcome response :=
  match tracked_alive w with
  | Some child =>
      (w, Return (Response false None (Some (popen_pid child)) MsgAlreadyRunning))
  | None =>
      match find_zbproxy_process w with
      | Some proc =>
          (w, Return (Response false None None (MsgAlreadyRunningPid (pid proc))))
      | None =>
          match executable w with
          | None => (w, Raised (HTTPException 404 ExecutableNotFound))
          | Some mode =>
              let w := set_executable (Some (ensure_executable os mode)) w in
              match spawn os with
              | Spawned child true =>
                  (set_tracked (Some (MkPopen child))
                     (set_processes
                        (processes w ++ [Process child (Some ZBPROXY_EXECUTABLE)]) w),
                   Return (Response true None (Some child) MsgStarted))
              | Spawned child false =>
                  (* raise HTTPException(500) inside the try block, caught
                     by [except Exception] and raised anew *)
                  (set_tracked None w,
                   Raised (HTTPException 500 (StartError (Some LaunchFailed))))
              | SpawnFileNotFound =>
                  (set_tracked None w,
                   Raised (HTTPException 404 NotFoundOrNotExecutable))
              | SpawnPermissionError =>
                  (set_tracked None w, Raised (HTTPException 403 NoPermission))
              | SpawnOtherError =>
                  (set_tracked None w, Raised (HTTPException 500 (StartError None)))
              end
          end
      end
  end.

(** *** [stop_zbproxy] *)

(** The first [if]: the child this service started.  Every exception in it
    is swallowed by [except Exception: pass], and [finally] clears the
    global.  Gives the world and [stopped_processes] so far. *)
Definition stop_tracked (os : stop_host) (w : world) : world * list nat :=
  match tracked_alive w with
  | Some child =>
      let p := popen_pid child in
      let gone := set_tracked None (set_processes (remove_process p (processes w)) w) in
      if send_signal_ok os then
        if wait_ok os then (gone, [p])
        else if kill_ok os then (gone, [p])
        else (set_tracked None w, [])
      else (set_tracked None w, [])
  | None => (w, [])
  end.

(** The second [if]: a process found by the scan.  Only
    [psutil.TimeoutExpired] and [psutil.AccessDenied] are caught, and in
    their handler the pid is appended right after [proc.kill()], with no
    [wait]: the process may still be in the table then. *)
Definition stop_found (os : stop_host) (w : world) (stopped : list nat)
  : world * outcome (list nat) :=
  match find_zbproxy_process w with
  | Some proc =>
      let p := pid proc in
      let gone := set_processes (remove_process p (processes w)) w in
      let killed := if proc_killed_gone os then gone else w in
      match proc_terminate os with
      | TerminateReturns =>
          if proc_wait_ok os then (gone, Return (stopped ++ [p]))
          else if proc_kill_ok os then (killed, Return (stopped ++ [p]))
          else (w, Return stopped)
      | TerminateAccessDenied =>
          if proc_kill_ok os then (killed, Return (stopped ++ [p]))
          else (w, Return stopped)
      | TerminateNoSuchProcess => (gone, Raised NoSuchProcess)
      end
  | None => (w, Return stopped)
  end.

Definition stop_response (stopped_processes : list nat) : response :=
  match stopped_processes with
  | [] => Response true None None MsgWasNotRunning
  | _ => Response true None None (MsgStopped stopped_processes)
  end.

Definition stop_zbproxy (os : stop_host) (w : world) : world * outcome response :=
  let '(w1, stopped_processes) := stop_tracked os w in
  match stop_found os w1 stopped_processes with
  | (w2, Return stopped_processes) => (w2, Return (stop_response stopped_processes))
  | (w2, Raised e) => (w2, Raised e)
  end.

(** The pids a result of [stop_zbproxy] names. *)
Definition stopped_list (r : response) : list nat :=
  match res_message r with
  | MsgStopped pids => pids
  | _ => []
  end.

(** *** [restart_zbproxy] *)

Definition restart_zbproxy (os1 : stop_host) (os2 : start_host) (w : world)
  : world * outcome response :=
  match stop_zbproxy os1 w with
  | (w1, Raised e) => (w1, Raised e)
  | (w1, Return stop_result) =>
      match start_zbproxy os2 w1 with
      | (w2, Raised e) => (w2, Raised e)
      | (w2, Return start_result) =>
          if success start_result
          then (w2, Return (Response true None (res_pid start_result) MsgRestarted))
          else (w2, Return (Response false None None
                              (MsgRestartFailed (res_message start_result))))
      end
  end.

(** *** Hosts and worlds used below *)

(** A host on which every call of [stop_zbproxy] returns. *)
Definition calm_host : stop_host :=
  StopHost true true true TerminateReturns true true true.

(** A host on which the process found by the scan is gone by the time
    [proc.terminate()] runs. *)
Definition vanishing_host : stop_host :=
  StopHost true true true TerminateNoSuchProcess true true true.

Definition healthy_host : start_host := StartHost true (Spawned 4321 true).

(** Nothing runs, nothing is tracked, the executable is in place. *)
Definition idle_world : world :=
  World None [Process 1 (Some "systemd")] (Some 493%Z).

(** An instance started by hand, never through [start_zbproxy]. *)
Definition external_world : world :=
  World None
    [Process 1 (Some "systemd"); Process 4242 (Some "ZBProxy-linux-amd64-v1")]
    (Some 493%Z).

(** The tracked child runs, and the executable has been removed since. *)
Definition orphaned_world : world :=
  World (Some (MkPopen 100))
    [Process 1 (Some "systemd"); Process 100 (Some "ZBProxy-linux-amd64-v1")]
    None.

(** Nothing runs and the executable is missing. *)
Definition bare_world : world :=
  World None [Process 1 (Some "systemd")] None.

End Supervisor.

(** ** Part II-a: the path functions read as functions on values *)

Module PathUpdate.
Import PathAccessor.

(** The statements after the loop of [set_nested_value], as the node they
    leave under [current]. *)
Definition assign_last (path last_key : string) (v : value) (node : value)
  : except value :=
  if isdigit last_key then
    match node with
    | JList l =>
        match l !! N.to_nat (int last_key) with
        | Some _ => Ok (JList (<[N.to_nat (int last_key) := v]> l))
        | None => Raise (InvalidIndex (int last_key))
        end
    | _ => Raise (InvalidIndex (int last_key))
    end
  else
    match node with
    | JDict d => Ok (JDict (<[last_key := v]> d))
    | _ => Raise (InvalidTarget path)
    end.

(** The node that a call starting at [node] leaves in its place. *)
Fixpoint assign (path : string) (keys : list string) (last_key : string)
    (v : value) (node : value) : except value :=
  match keys with
  | [] => assign_last path last_key v node
  | key :: keys' =>
      match subscript path key node with
      | Ok item =>
          match assign path keys' last_key v item with
          | Ok item' => Ok (fill (Frame node (segment_of key)) item')
          | Raise e => Raise e
          end
      | Raise e => Raise e
      end
  end.

(** A name has a dot in it. *)
Fixpoint has_dot (s : string) : bool :=
  match s with
  | EmptyString => false
  | String c rest => Ascii.eqb c "." || has_dot rest
  end.

End PathUpdate.

(** ** Part II-b: the configuration endpoints *)

Module ConfigStore.
Import PathAccessor.

(** [CONFIG_FILE] on disk, as [load_config] finds it: not there; there
    and not to be opened for reading; holding bytes that are no UTF-8
    text; holding text that is no JSON; or holding a document.  A file
    that parses is taken with the document [json.load] makes of it, and
    [json.dump] is taken to write a file that loads as the document
    dumped. *)
Inductive config_file : Type :=
  | FileMissing
  | FileDenied
  | FileNotText
  | FileMalformed
  | FileHolds (config : value).

Inductive detail : Type :=
  | ConfigNotFound                 (* 404 "配置文件未找到" *)
  | ConfigMalformed                (* 400 "配置文件格式错误: ..." *)
  | SaveFailed                     (* 500 "保存配置文件失败: ..." *)
  | PathFailure (e : PathError)    (* 400, the three path texts *)
  | ServiceExists (name : string)  (* 400 "服务 '{name}' 已存在" *)
  | NoServices                     (* 404 "没有找到服务配置" *)
  | ServiceNotFound (name : string) (* 404 "服务 '{name}' 未找到" *)
  | OutboundExists (name : string) (* 400 "出站 '{name}' 已存在" *)
  | NoOutbounds                    (* 404 "没有找到出站配置" *)
  | OutboundNotFound (name : string). (* 404 "出站 '{name}' 未找到" *)

(** What ends an endpoint early: an [HTTPException], or one of the
    exceptions that nothing catches: [TypeError] and [AttributeError] of
    a document of another shape, [PermissionError] and
    [UnicodeDecodeError] of [open] and of the read in [load_config]. *)
Inductive exn : Type :=
  | HTTPException (status_code : nat) (d : detail)
  | TypeError
  | AttributeError
  | PermissionError
  | UnicodeDecodeError.

Inductive outcome (A : Type) : Type :=
  | Return (a : A)
  | Raised (e : exn).
Arguments Return {A} a.
Arguments Raised {A} e.

(** The returned dictionaries, all with "success": True. *)
Inductive reply : Type :=
  | ConfigReply (config : value)               (* "config" *)
  | ValueReply (path : string) (v : value)     (* "path", "value" *)
  | UpdatedReply (path : string) (v : value)   (* "配置已更新: {path} = {value}" *)
  | ServiceAdded (name : string)               (* "服务 '{name}' 已添加" *)
  | ServiceDeleted (name : string)             (* "服务 '{name}' 已删除" *)
  | OutboundAdded (name : string)              (* "出站 '{name}' 已添加" *)
  | OutboundDeleted (name : string).           (* "出站 '{name}' 已删除" *)

(** How the write of [save_config] goes: it completes; [open] raises and
    the file is as before; or the dump breaks off after [open] has
    truncated the file. *)
Inductive save_result : Type :=
  | SaveDone
  | SaveOpenFails
  | SaveDumpFails.

Definition load_config (file : config_file) : outcome value :=
  match file with
  | FileMissing => Raised (HTTPException 404 ConfigNotFound)
  | FileDenied => Raised PermissionError
  | FileNotText => Raised UnicodeDecodeError
  | FileMalformed => Raised (HTTPException 400 ConfigMalformed)
  | FileHolds config => Return config
  end.

Definition save_config (os : save_result) (config : value) (file : config_file)
  : config_file * outcome unit :=
  match os with
  | SaveDone => (FileHolds config, Return tt)
  | SaveOpenFails => (file, Raised (HTTPException 500 SaveFailed))
  | SaveDumpFails => (FileMalformed, Raised (HTTPException 500 SaveFailed))
  end.

(** [GET /config]. *)
Definition get_config (file : config_file) : outcome reply :=
  match load_config file with
  | Return config => Return (ConfigReply config)
  | Raised e => Raised e
  end.

(** [GET /config/{path}]. *)
Definition get_config_value (path : string) (file : config_file) : outcome reply :=
  match load_config file with
  | Return config =>
      match get_nested_value config path with
      | Ok v => Return (ValueReply path v)
      | Raise e => Raised (HTTPException 400 (PathFailure e))
      end
  | Raised e => Raised e
  end.

(** [PUT /config].  The read before the write is in a [try] whose
    [except HTTPException: pass] drops its outcome. *)
Definition update_config_value (os : save_result) (path : string) (v : value)
    (file : config_file) : config_file * outcome reply :=
  match load_config file with
  | Return config =>
      let _ := get_nested_value config path in
      match set_nested_value config path v with
      | (config, Ok _) =>
          match save_config os config file with
          | (file', Return _) => (file', Return (UpdatedReply path v))
          | (file', Raised e) => (file', Raised e)
          end
      | (_, Raise e) => (file, Raised (HTTPException 400 (PathFailure e)))
      end
  | Raised e => (file, Raised e)
  end.

(** *** Services and outbounds *)

Record ServiceConfig : Type := MkService {
  Name : string;
  Listen : Z;
  IPAccess : gmap string value;
  Outbound : gmap string value
}.

(** [OutboundConfig]; its field [Name] is [OutName] here. *)
Record OutboundConfig : Type := MkOutbound {
  OutName : string;
  TargetAddress : string;
  TargetPort : Z;
  Minecraft : option (gmap string value);
  ProxyOptions : option (gmap string value)
}.

(** [service.dict()]. *)
Definition service_dict (service : ServiceConfig) : gmap string value :=
  {[ "Name" := JStr (Name service);
     "Listen" := JInt (Listen service);
     "IPAccess" := JDict (IPAccess service);
     "Outbound" := JDict (Outbound service) ]}.

Definition default_minecraft : gmap string value :=
  {[ "EnableHostnameRewrite" := JBool true;
     "OnlineCount" := JDict {[ "Max" := JInt 20; "Online" := JInt (-1);
                               "EnableMaxLimit" := JBool false ]};
     "HostnameAccess" := JDict {[ "Mode" := JStr "" ]};
     "NameAccess" := JDict {[ "Mode" := JStr "" ]};
     "PingMode" := JStr "";
     "MotdFavicon" := JStr "{DEFAULT_MOTD}";
     "MotdDescription" := JStr "§d{NAME}§e, provided by §a§o{INFO}§r
§c§lProxy for §6§n{HOST}:{PORT}§r" ]}.

Definition default_proxy_options : gmap string value :=
  {[ "Type" := JStr "" ]}.

(** [outbound.dict()] with the two [None] fields filled in. *)
Definition outbound_dict (outbound : OutboundConfig) : gmap string value :=
  {[ "Name" := JStr (OutName outbound);
     "TargetAddress" := JStr (TargetAddress outbound);
     "TargetPort" := JInt (TargetPort outbound);
     "Minecraft" := JDict (default default_minecraft (Minecraft outbound));
     "ProxyOptions" := JDict (default default_proxy_options (ProxyOptions outbound)) ]}.

(** [entry.get("Name") == name]; anything but a dictionary has no
    [get]. *)
Definition has_name (name : string) (entry : value) : outcome bool :=
  match entry with
  | JDict d =>
      match d !! "Name" with
      | Some (JStr n) => Return (String.eqb n name)
      | _ => Return false
      end
  | _ => Raised AttributeError
  end.

(** The loop [for existing in entries: if existing.get("Name") == name]:
    whether it comes to the [raise]. *)
Fixpoint name_taken (name : string) (entries : list value) : outcome bool :=
  match entries with
  | [] => Return false
  | entry :: rest =>
      match has_name name entry with
      | Return true => Return true
      | Return false => name_taken name rest
      | Raised e => Raised e
      end
  end.

(** [[s for s in entries if s.get("Name") != name]]. *)
Fixpoint drop_named (name : string) (entries : list value) : outcome (list value) :=
  match entries with
  | [] => Return []
  | entry :: rest =>
      match has_name name entry with
      | Return named =>
          match drop_named name rest with
          | Return kept => Return (if named then kept else entry :: kept)
          | Raised e => Raised e
          end
      | Raised e => Raised e
      end
  end.

(** The body shared by [add_service] and [add_outbound], on the list under
    [section]: the list is made when the key is missing, the name must be
    free, the entry goes to the end, and the file is saved. *)
Definition add_entry (os : save_result) (section name : string)
    (entry : gmap string value) (taken : detail) (added : reply)
    (file : config_file) : config_file * outcome reply :=
  match load_config file with
  | Return (JDict config) =>
      match default (JList []) (config !! section) with
      | JList entries =>
          match name_taken name entries with
          | Return false =>
              let config :=
                <[section := JList (entries ++ [JDict entry])]> config in
              match save_config os (JDict config) file with
              | (file', Return _) => (file', Return added)
              | (file', Raised e) => (file', Raised e)
              end
          | Return true => (file, Raised (HTTPException 400 taken))
          | Raised e => (file, Raised e)
          end
      | JDict _ | JStr _ => (file, Raised AttributeError)
      | _ => (file, Raised TypeError)
      end
  | Return _ => (file, Raised TypeError)
  | Raised e => (file, Raised e)
  end.

(** [POST /config/service]. *)
Definition add_service (os : save_result) (service : ServiceConfig)
    (file : config_file) : config_file * outcome reply :=
  add_entry os "Services" (Name service) (service_dict service)
    (ServiceExists (Name service)) (ServiceAdded (Name service)) file.

(** [POST /config/outbound]. *)
Definition add_outbound (os : save_result) (outbound : OutboundConfig)
    (file : config_file) : config_file * outcome reply :=
  add_entry os "Outbounds" (OutName outbound) (outbound_dict outbound)
    (OutboundExists (OutName outbound)) (OutboundAdded (OutName outbound)) file.

(** [section not in config] on what [load_config] may give. *)
Definition section_missing (section : string) (config : value) : outcome bool :=
  match config with
  | JDict d => Return (bool_decide (d !! section = None))
  | JList l =>
      Return (negb (existsb (fun x => match x with
                                      | JStr s => String.eqb s section
                                      | _ => false
                                      end) l))
  | JStr s => Return (negb (Supervisor.contains section s))
  | _ => Raised TypeError
  end.

(** The body shared by [delete_service] and [delete_outbound]. *)
Definition delete_entry (os : save_result) (section name : string)
    (no_section not_found : detail) (deleted : reply)
    (file : config_file) : config_file * outcome reply :=
  match load_config file with
  | Return config =>
      match section_missing section config with
      | Return true => (file, Raised (HTTPException 404 no_section))
      | Return false =>
          match config with
          | JDict d =>
              match d !! section with
              | Some (JList entries) =>
                  match drop_named name entries with
                  | Return kept =>
                      if Nat.eqb (List.length kept) (List.length entries)
                      then (file, Raised (HTTPException 404 not_found))
                      else
                        match save_config os
                                (JDict (<[section := JList kept]> d)) file with
                        | (file', Return _) => (file', Return deleted)
                        | (file', Raised e) => (file', Raised e)
                        end
                  | Raised e => (file, Raised e)
                  end
              | Some (JDict entries) =>
                  if bool_decide (entries = ∅)
                  then (file, Raised (HTTPException 404 not_found))
                  else (file, Raised AttributeError)
              | Some (JStr s) =>
                  if String.eqb s ""
                  then (file, Raised (HTTPException 404 not_found))
                  else (file, Raised AttributeError)
              | _ => (file, Raised TypeError)
              end
          | _ => (file, Raised TypeError)
          end
      | Raised e => (file, Raised e)
      end
  | Raised e => (file, Raised e)
  end.

(** [DELETE /config/service/{service_name}]. *)
Definition delete_service (os : save_result) (service_name : string)
    (file : config_file) : config_file * outcome reply :=
  delete_entry os "Services" service_name
    NoServices (ServiceNotFound service_name) (ServiceDeleted service_name) file.

(** [DELETE /config/outbound/{outbound_name}]. *)
Definition delete_outbound (os : save_result) (outbound_name : string)
    (file : config_file) : config_file * outcome reply :=
  delete_entry os "Outbounds" outbound_name
    NoOutbounds (OutboundNotFound outbound_name) (OutboundDeleted outbound_name) file.

(** The test of the comprehension, [s.get("Name") != name], on an entry
    that has a [get]. *)
Definition other_name (name : string) (entry : value) : bool :=
  match has_name name entry with
  | Return named => negb named
  | Raised _ => false
  end.

Definition is_dict (entry : value) : bool :=
  match entry with
  | JDict _ => true
  | _ => false
  end.

(** The names of the dictionaries of a list, in order. *)
Definition names_of (entries : list value) : list string :=
  omap (fun entry => match entry with
                     | JDict d => match d !! "Name" with
                                  | Some (JStr n) => Some n
                                  | _ => None
                                  end
                     | _ => None
                     end) entries.

(** *** Files and requests used below *)

Definition lobby_service : ServiceConfig :=
  MkService "lobby" 25565 {[ "Mode" := JStr "" ]} {[ "Type" := JStr "" ]}.

Definition hub_outbound : OutboundConfig :=
  MkOutbound "hub" "10.0.0.2" 25566 None None.

Definition fresh_file : config_file :=
  FileHolds (JDict {[ "Services" := JList []; "Outbounds" := JList [] ]}).

(** A file with the service "lobby", an entry without a name and an entry
    whose name is no string. *)
Definition lobby_config : gmap string value :=
  {[ "Services" := JList [JDict (service_dict lobby_service);
                          JDict {[ "Listen" := JInt 25570 ]};
                          JDict {[ "Name" := JInt 7 ]}];
     "Outbounds" := JList [] ]}.

Definition lobby_file : config_file := FileHolds (JDict lobby_config).

End ConfigStore.

(** ** Part II-c: the log endpoints *)

Module Logs.

(** A log file as [readlines] and [os.path.getsize] give it. *)
Record log_file : Type := LogFile { file_lines : list string; file_size : N }.

Definition log_files : list string :=
  ["out.log"; "zbproxy.log"; "error.log"; "access.log"].

(** [l[start:]] for any integer [start]. *)
Definition slice_from {A} (start : Z) (l : list A) : list A :=
  let len := Z.of_nat (List.length l) in
  let start := if (start <? 0)%Z then Z.max (len + start) 0 else Z.min start len in
  drop (Z.to_nat start) l.

(** [l[-n:] if len(l) > n else l]. *)
Definition last_lines {A} (n : Z) (l : list A) : list A :=
  if (n <? Z.of_nat (List.length l))%Z then slice_from (- n) l else l.

Inductive detail : Type :=
  | NotAllowed                     (* 400 "不允许访问的文件，仅支持: ..." *)
  | LogNotFound (filename : string) (* 404 "日志文件不存在: {filename}" *)
  | ReadFailed.                    (* 500 "读取日志文件失败: ..." *)

Inductive outcome (A : Type) : Type :=
  | Return (a : A)
  | Raised (status_code : nat) (d : detail).
Arguments Return {A} a.
Arguments Raised {A} status_code d.

(** The dictionary [tail_log] returns, "success": True left out. *)
Record tail_reply : Type := TailReply {
  filename : string;
  total_lines : nat;
  returned_lines : nat;
  lines : list string;
  size : N
}.

(** [GET /logs/tail/{filename}?lines=]; [read_ok] tells whether the [try]
    block runs without an exception. *)
Definition tail_log (read_ok : bool) (disk : gmap string log_file)
    (filename : string) (lines : Z) : outcome tail_reply :=
  if bool_decide (filename ∈ log_files) then
    match disk !! filename with
    | Some f =>
        if read_ok then
          let all_lines := file_lines f in
          let tail_lines := last_lines lines all_lines in
          Return (TailReply filename (List.length all_lines)
                    (List.length tail_lines) tail_lines (file_size f))
        else Raised 500 ReadFailed
    | None => Raised 404 (LogNotFound filename)
    end
  else Raised 400 NotAllowed.

(** An entry of "logs" in the answer of [get_logs]. *)
Inductive log_entry : Type :=
  | LogLines (lines : list string) (total_lines : nat) (size : N)
  | LogUnreadable                  (* "读取日志文件失败: ..." *)
  | LogAbsent.                     (* "日志文件不存在" *)

(** The loop [for log_file in log_files] of [get_logs]; [readable] tells
    for each file whether reading it raises. *)
Definition read_log (readable : string → bool) (disk : gmap string log_file)
    (name : string) : log_entry :=
  match disk !! name with
  | Some f =>
      if readable name
      then LogLines (last_lines 200 (file_lines f))
             (List.length (file_lines f)) (file_size f)
      else LogUnreadable
  | None => LogAbsent
  end.

Definition get_logs_files (readable : string → bool) (disk : gmap string log_file)
  : list (string * log_entry) :=
  map (fun name => (name, read_log readable disk name)) log_files.

(** The dictionary [clear_logs] returns; the message of a success quotes
    [errors] too. *)
Record clear_reply : Type := ClearReply {
  success : bool;
  cleared_files : list string;
  errors : list string
}.

(** The loop of [clear_logs] over [names]; [writable] tells for each file
    whether [open(_, 'w')] and the write go through. *)
Fixpoint clear_loop (writable : string → bool) (names : list string)
    (disk : gmap string log_file) (cleared failed : list string)
  : gmap string log_file * list string * list string :=
  match names with
  | [] => (disk, cleared, failed)
  | name :: rest =>
      match disk !! name with
      | Some _ =>
          if writable name
          then clear_loop writable rest (<[name := LogFile [] 0]> disk)
                 (cleared ++ [name]) failed
          else clear_loop writable rest disk cleared (failed ++ [name])
      | None => clear_loop writable rest disk cleared failed
      end
  end.

(** [POST /logs/clear]. *)
Definition clear_logs (writable : string → bool) (disk : gmap string log_file)
  : gmap string log_file * clear_reply :=
  let '(disk', cleared, failed) := clear_loop writable log_files disk [] [] in
  (disk', match cleared with
          | [] => ClearReply false [] failed
          | _ => ClearReply true cleared failed
          end).

(** A log file that is there and can be written. *)
Definition clearable (writable : string → bool) (disk : gmap string log_file)
    (name : string) : bool :=
  bool_decide (is_Some (disk !! name)) && writable name.

(** A disk used below. *)
Definition two_logs : gmap string log_file :=
  {[ "out.log" := LogFile ["started"; "listening"; "closed"] 27;
     "error.log" := LogFile [] 0 ]}.

End Logs.

(** ** Part II-d: the permission repair *)

Module Permissions.
Import Supervisor.

Inductive chmod_result : Type :=
  | ChmodDone
  | ChmodPermissionError           (* PermissionError *)
  | ChmodOtherError.               (* any other Exception *)

Inductive detail : Type :=
  | ExecutableMissing              (* 404 "ZBProxy可执行文件未找到: ..." *)
  | NotPermitted                   (* 403 "权限不足，无法修改文件权限..." *)
  | RepairError.                   (* 500 "修复权限时出错: ..." *)

Inductive outcome (A : Type) : Type :=
  | Return (a : A)
  | Raised (status_code : nat) (d : detail).
Arguments Return {A} a.
Arguments Raised {A} status_code d.

(** [st_mode] after [os.chmod(path, bits)]: the twelve permission bits
    are replaced, the file type above them stays. *)
Definition chmod (bits mode : Z) : Z :=
  Z.lor (Z.land mode (Z.lnot 4095)) (Z.land bits 4095).

(** [oct(mode)[-3:]] of an [st_mode], which has six octal digits: the
    number its last three digits write. *)
Definition last_three_octal (mode : Z) : Z := Z.land mode 511.

(** The dictionary [fix_permissions] returns. *)
Record fix_reply : Type := FixReply {
  old_permissions : Z;
  new_permissions : Z
}.

(** [POST /fix-permissions]. *)
Definition fix_permissions (os : chmod_result) (w : world)
  : world * outcome fix_reply :=
  match executable w with
  | Some current_permissions =>
      match os with
      | ChmodDone =>
          let new_permissions := chmod 493 current_permissions in
          (set_executable (Some new_permissions) w,
           Return (FixReply (last_three_octal current_permissions)
                     (last_three_octal new_permissions)))
      | ChmodPermissionError => (w, Raised 403 NotPermitted)
      | ChmodOtherError => (w, Raised 500 RepairError)
      end
  | None => (w, Raised 404 ExecutableMissing)
  end.

End Permissions.

(** ** Part II-e: what the scan looks for *)

Module ProcessScan.
Import Supervisor.

(** The test of [find_zbproxy_process] on one process. *)
Definition named_like_executable (proc : process) : bool :=
  match name proc with
  | Some n =>
      negb (String.eqb n "") && contains (lower ZBPROXY_EXECUTABLE) (lower n)
  | None => false
  end.

(** Two instances started by hand. *)
Definition crowded_world : world :=
  World None
    [Process 1 (Some "systemd");
     Process 4242 (Some "ZBProxy-linux-amd64-v1");
     Process 4343 (Some "zbproxy-linux-amd64-v1-debug")]
    (Some 33188%Z).

End ProcessScan.

(** ** Part III: properties of the path accessor *)

Module PathFacts.
Import PathAccessor.

Example split_services : split "Services.0.Listen" = ["Services"; "0"; "Listen"].
Proof. reflexivity. Qed.

Example get_listen :
  get_nested_value services_doc "Services.0.Listen" = Ok (JInt 25565).
Proof. reflexivity. Qed.

Example set_listen :
  set_nested_value services_doc "Services.0.Listen" (JInt 25577)
  = (JDict {[ "Services" := JList [JDict {[ "Listen" := JInt 25577 ]}] ]}, Ok tt).
Proof. vm_compute. reflexivity. Qed.

Example set_level :
  set_nested_value log_doc "Log.Level" (JStr "debug")
  = (JDict {[ "Log" := JDict {[ "Level" := JStr "debug"; "Colorful" := JBool true ]};
              "Services" := JList [] ]}, Ok tt).
Proof. vm_compute. reflexivity. Qed.

(** *** The pieces of a path *)

Lemma split_nonempty path : split path ≠ [].
Proof.
  induction path as [|c rest IH]; simpl; [done|].
  destruct (Ascii.eqb c "."); [done|].
  by destruct (split rest).
Qed.

Lemma split_init_last path :
  split path = removelast (split path) ++ [List.last (split path) ""].
Proof. apply app_removelast_last, split_nonempty. Qed.

Lemma segment_of_digit key : isdigit key = true → segment_of key = Idx (int key).
Proof. intros H. unfold segment_of. by rewrite H. Qed.

Lemma segment_of_name key : isdigit key = false → segment_of key = Key key.
Proof. intros H. unfold segment_of. by rewrite H. Qed.

(** *** One subscript *)

(** Which item a key selects depends on its segment only, and not on the
    path the error text would quote. *)
Lemma subscript_segment path path' a b node item :
  segment_of a = segment_of b →
  subscript path a node = Ok item → subscript path' b node = Ok item.
Proof.
  unfold segment_of, subscript.
  destruct (isdigit a), (isdigit b); intros Hseg; try discriminate.
  - injection Hseg as <-. destruct node; try discriminate.
    by destruct (l !! N.to_nat (int a)).
  - injection Hseg as <-. destruct node; try discriminate.
    by destruct (d !! a).
Qed.

Lemma subscript_same_result path a b node :
  segment_of a = segment_of b →
  subscript path a node = subscript path b node.
Proof.
  unfold segment_of, subscript.
  destruct (isdigit a), (isdigit b); intros Hseg; try discriminate.
  - by injection Hseg as <-.
  - by injection Hseg as <-.
Qed.

Lemma fill_subscript path key node item :
  subscript path key node = Ok item →
  fill (Frame node (segment_of key)) item = node.
Proof.
  unfold segment_of, subscript, fill; simpl.
  destruct (isdigit key), node; try discriminate.
  - destruct (l !! N.to_nat (int key)) eqn:E; [|discriminate].
    intros [= <-]. by rewrite list_insert_id.
  - destruct (d !! key) eqn:E; [|discriminate].
    intros [= <-]. by rewrite insert_id.
Qed.

Lemma subscript_fill path path' key node item x :
  subscript path key node = Ok item →
  subscript path' key (fill (Frame node (segment_of key)) x) = Ok x.
Proof.
  unfold segment_of, subscript, fill; simpl.
  destruct (isdigit key) eqn:Hd, node; try discriminate; simpl; rewrite ?Hd.
  - destruct (l !! N.to_nat (int key)) eqn:E; [|discriminate]. intros _.
    rewrite list_lookup_insert_eq; [done|]. by eapply lookup_lt_Some.
  - intros _. by rewrite lookup_insert_eq.
Qed.

Lemma subscript_fill_other path path' key b node item x :
  subscript path key node = Ok item →
  segment_of b ≠ segment_of key →
  subscript path' b (fill (Frame node (segment_of key)) x) = subscript path' b node.
Proof.
  unfold segment_of, subscript, fill; simpl.
  destruct (isdigit key) eqn:Hd, node; try discriminate; simpl; intros _ Hne;
    destruct (isdigit b) eqn:Hb; try done.
  - rewrite list_lookup_insert_ne; [done|]. intros Heq. apply Hne.
    f_equal. by apply N2Nat.inj.
  - rewrite lookup_insert_ne; [done|]. congruence.
Qed.

(** *** The reading loop *)

Lemma get_loop_app path keys keys' node :
  get_loop path (keys ++ keys') node
  = match get_loop path keys node with
    | Ok item => get_loop path keys' item
    | Raise e => Raise e
    end.
Proof.
  revert node. induction keys as [|key keys IH]; intros node; simpl; [done|].
  destruct (subscript path key node); [apply IH | done].
Qed.

Lemma plug_app fs fs' node : plug (fs ++ fs') node = plug fs' (plug fs node).
Proof. unfold plug. apply fold_left_app. Qed.

(** *** The loop of [set_nested_value] *)

(** The loop only moves [current]: whatever its outcome, the document is
    the one it started on. *)
Lemma set_loop_document path keys s s' r :
  set_loop path keys s = (s', r) → document s' = document s.
Proof.
  revert s. induction keys as [|key keys IH]; intros s; simpl.
  - by intros [= <- <-].
  - unfold bind, read_current, lift, move_to.
    destruct (subscript path key (current s)) as [item|e] eqn:Hsub.
    + intros Hrest. apply IH in Hrest. rewrite Hrest.
      unfold document; simpl. by rewrite (fill_subscript _ _ _ _ Hsub).
    + by intros [= <- <-].
Qed.

(** It stops with the exception of the reading loop when that one fails. *)
Lemma set_loop_raise path keys s e :
  get_loop path keys (current s) = Raise e →
  ∃ s', set_loop path keys s = (s', Raise e).
Proof.
  revert s. induction keys as [|key keys IH]; intros s; simpl; [done|].
  unfold bind, read_current, lift, move_to.
  destruct (subscript path key (current s)) as [item|e'] eqn:Hsub.
  - intros Hrest.
    apply (IH (Store (Frame (current s) (segment_of key) :: above s) item)), Hrest.
  - intros [= <-]. by eexists.
Qed.

(** When the reading loop reaches [node], the writing loop stops there,
    with new frames [fs] above it through which the same keys lead back
    down, and which keep every item that the keys do not select. *)
Lemma set_loop_ok path keys s node :
  get_loop path keys (current s) = Ok node →
  ∃ fs,
    set_loop path keys s = (Store (fs ++ above s) node, Ok tt)
    ∧ plug fs node = current s
    ∧ (∀ path' x, get_loop path' keys (plug fs x) = get_loop path' [] x)
    ∧ (∀ path' k x y,
         (∀ b, segment_of b ≠ segment_of k →
               subscript path' b x = subscript path' b y) →
         ∀ qs, diverges (keys ++ [k]) qs = true →
               get_loop path' qs (plug fs x) = get_loop path' qs (plug fs y)).
Proof.
  revert s. induction keys as [|key keys IH]; intros s; simpl.
  - intros [= <-]. exists []. split_and!; try done.
    + by destruct s.
    + intros path' k x y Hxy [|b rb]; [done|]. simpl.
      case_bool_decide as Hseg; [by destruct rb|]. intros _.
      rewrite Hxy; [done|]. congruence.
  - unfold bind, read_current, lift, move_to.
    destruct (subscript path key (current s)) as [item|e] eqn:Hsub; [|done].
    intros Hrest.
    destruct (IH (Store (Frame (current s) (segment_of key) :: above s) item) Hrest)
      as (fs & Hrun & Hplug & Hdown & Hframe); simpl in *.
    exists (fs ++ [Frame (current s) (segment_of key)]). split_and!.
    + by rewrite Hrun, <- app_assoc.
    + rewrite plug_app, Hplug. simpl. by eapply fill_subscript.
    + intros path' x. rewrite plug_app. simpl.
      rewrite (subscript_fill _ path' _ _ _ _ Hsub). apply Hdown.
    + intros path' k x y Hxy [|b rb]; [done|]. simpl.
      rewrite !plug_app. simpl.
      case_bool_decide as Hseg.
      * intros Hdiv.
        rewrite <- !(subscript_same_result path' key b _ Hseg).
        rewrite !(subscript_fill _ path' _ _ _ _ Hsub).
        by apply Hframe with k.
      * intros _.
        rewrite !(subscript_fill_other _ path' _ _ _ _ _ Hsub); [done| |];
          congruence.
Qed.

(** *** The last key *)

Lemma set_last_raise path k v s s' e :
  set_last path k v s = (s', Raise e) → s' = s.
Proof.
  unfold set_last, bind, read_current, write_current, raise.
  destruct (isdigit k), (current s); try (by intros [= <-]).
  by destruct (l !! N.to_nat (int k)); intros [= <-].
Qed.

Lemma set_last_ok path k v s s' :
  set_last path k v s = (s', Ok tt) →
  above s' = above s
  ∧ (∀ path', subscript path' k (current s') = Ok v)
  ∧ (∀ path' b, segment_of b ≠ segment_of k →
                subscript path' b (current s') = subscript path' b (current s)).
Proof.
  unfold set_last, bind, read_current, write_current, raise, segment_of, subscript.
  destruct (isdigit k) eqn:Hk, (current s) eqn:Hcur; try discriminate.
  - destruct (l !! N.to_nat (int k)) eqn:Hl; [|discriminate].
    intros [= <-]; simpl. split_and!; [done| |].
    + intros ?. rewrite list_lookup_insert_eq; [done|]. by eapply lookup_lt_Some.
    + intros path' b Hne. destruct (isdigit b); [|done].
      rewrite list_lookup_insert_ne; [done|].
      intros Heq. apply Hne. f_equal. by apply N2Nat.inj.
  - intros [= <-]; simpl. split_and!; [done| |].
    + intros ?. by rewrite lookup_insert_eq.
    + intros path' b Hne. destruct (isdigit b); [done|].
      rewrite lookup_insert_ne; [done|]. congruence.
Qed.

Lemma set_last_resolved path k v s x :
  subscript path k (current s) = Ok x →
  ∃ node, set_last path k v s = (Store (above s) node, Ok tt).
Proof.
  unfold set_last, bind, read_current, write_current, raise, subscript.
  destruct (isdigit k), (current s); try discriminate.
  - destruct (l !! N.to_nat (int k)); [|discriminate]. by eexists.
  - by eexists.
Qed.

(** *** The whole call *)

(** A call that succeeds went down the keys before the last one, and the
    document it leaves is the old one with the node it reached changed. *)
Lemma set_nested_value_ok data path v data' :
  set_nested_value data path v = (data', Ok tt) →
  ∃ fs node node',
    get_loop path (removelast (split path)) data = Ok node
    ∧ set_loop path (removelast (split path)) (Store [] data)
      = (Store fs node, Ok tt)
    ∧ set_last path (List.last (split path) "") v (Store fs node)
      = (Store fs node', Ok tt)
    ∧ data = plug fs node ∧ data' = plug fs node'.
Proof.
  unfold set_nested_value, set_body, bind.
  destruct (get_loop path (removelast (split path)) data) as [node|e] eqn:Hget.
  - destruct (set_loop_ok path _ (Store [] data) node Hget)
      as (fs & Hrun & Hplug & _). simpl in *. rewrite app_nil_r in Hrun.
    rewrite Hrun.
    destruct (set_last path _ v (Store fs node)) as [s' [[]|e]] eqn:Hlast;
      [|discriminate].
    intros [= <-]. destruct (set_last_ok _ _ _ _ _ Hlast) as (Habove & _).
    destruct s' as [fs' node']; simpl in *; subst fs'.
    by exists fs, node, node'.
  - destruct (set_loop_raise path _ (Store [] data) e Hget) as [s' ->].
    discriminate.
Qed.

Lemma set_nested_value_raise data path v data' e :
  set_nested_value data path v = (data', Raise e) → data' = data.
Proof.
  unfold set_nested_value, set_body, bind.
  destruct (set_loop path _ (Store [] data)) as [s1 [[]|e1]] eqn:Hloop.
  - destruct (set_last path _ v s1) as [s2 [[]|e2]] eqn:Hlast; [discriminate|].
    intros [= <- _]. apply set_last_raise in Hlast as ->.
    by apply set_loop_document in Hloop.
  - intros [= <- _]. by apply set_loop_document in Hloop.
Qed.

Lemma set_then_get data path v data' :
  set_nested_value data path v = (data', Ok tt) →
  get_nested_value data' path = Ok v.
Proof.
  intros Hset.
  destruct (set_nested_value_ok _ _ _ _ Hset)
    as (fs & node & node' & Hget & Hloop & Hlast & -> & ->).
  destruct (set_loop_ok path _ (Store [] (plug fs node)) node Hget)
    as (fs' & Hrun & _ & Hdown & _). simpl in *. rewrite app_nil_r in Hrun.
  rewrite Hrun in Hloop. injection Hloop as ->.
  unfold get_nested_value. rewrite split_init_last at 1.
  rewrite get_loop_app, Hdown. simpl.
  destruct (set_last_ok _ _ _ _ _ Hlast) as (_ & Hread & _). simpl in Hread.
  by rewrite Hread.
Qed.

Lemma get_then_set data path v x :
  get_nested_value data path = Ok x →
  ∃ data', set_nested_value data path v = (data', Ok tt).
Proof.
  unfold get_nested_value. rewrite split_init_last at 1. rewrite get_loop_app.
  destruct (get_loop path (removelast (split path)) data) as [node|e] eqn:Hget;
    [|discriminate].
  simpl. destruct (subscript path _ node) as [item|e] eqn:Hsub; [|discriminate].
  intros _.
  destruct (set_loop_ok path _ (Store [] data) node Hget) as (fs & Hrun & _).
  destruct (set_last_resolved path _ v (Store (fs ++ []) node) item Hsub)
    as [node' Hlast].
  unfold set_nested_value, set_body, bind. simpl in *.
  rewrite Hrun, Hlast. by eexists.
Qed.

Lemma set_nested_value_frame data path v data' path' keys' :
  set_nested_value data path v = (data', Ok tt) →
  diverges (split path) keys' = true →
  get_loop path' keys' data' = get_loop path' keys' data.
Proof.
  intros Hset Hdiv.
  destruct (set_nested_value_ok _ _ _ _ Hset)
    as (fs & node & node' & Hget & Hloop & Hlast & -> & ->).
  destruct (set_loop_ok path _ (Store [] (plug fs node)) node Hget)
    as (fs' & Hrun & _ & _ & Hframe). simpl in *. rewrite app_nil_r in Hrun.
  rewrite Hrun in Hloop. injection Hloop as ->.
  destruct (set_last_ok _ _ _ _ _ Hlast) as (_ & _ & Hkeep). simpl in Hkeep.
  apply Hframe with (List.last (split path) ""); [auto|].
  by rewrite <- split_init_last.
Qed.


(** *** The claims on the path accessor *)

(** C1. Write-then-read round trip: when [path] resolves in [data] to a
    scalar, [set_nested_value data path v] succeeds, and reading [path] in
    the document it leaves gives [v]. *)
Theorem C1_write_then_read data path v x :
  get_nested_value data path = Ok x →
  is_scalar x = true →
  ∃ data',
    set_nested_value data path v = (data', Ok tt)
    ∧ get_nested_value data' path = Ok v.
Proof.
  intros Hget _. destruct (get_then_set data path v x Hget) as [data' Hset].
  exists data'. split; [done|]. by eapply set_then_get.
Qed.

Lemma C1_write_then_read_witness :
  ∃ data',
    set_nested_value services_doc "Services.0.Listen" (JInt 25577) = (data', Ok tt)
    ∧ get_nested_value data' "Services.0.Listen" = Ok (JInt 25577).
Proof.
  apply (C1_write_then_read services_doc "Services.0.Listen" (JInt 25577) (JInt 25565));
    reflexivity.
Defined.

(** C2. Reading "Services.0.Listen" gives 25565 in
    [{"Services":[{"Listen":25565}]}] and fails with the invalid-index
    error in [{"Services":[]}]; and a numeric key goes down into an item
    only when the node is a list and its index is within the list.  For a
    numeric key of no more digits than [int] converts the converse holds
    too: with the index within the list the loop goes on from that item,
    and in every other case it raises the invalid-index error. *)
Theorem C2_numeric_segment :
  get_nested_value services_doc "Services.0.Listen" = Ok (JInt 25565)
  ∧ get_nested_value no_services_doc "Services.0.Listen" = Raise (InvalidIndex 0)
  ∧ ∀ path key keys node,
      isdigit key = true →
      (∀ x, get_loop path (key :: keys) node = Ok x →
            ∃ l, node = JList l ∧ (N.to_nat (int key) < List.length l)%nat)
      ∧ ((String.length key ≤ MAX_STR_DIGITS)%nat →
         (∀ l, node = JList l → (N.to_nat (int key) < List.length l)%nat →
               ∃ item, l !! N.to_nat (int key) = Some item
                       ∧ get_loop path (key :: keys) node
                         = get_loop path keys item)
         ∧ ((∀ l, node = JList l → (List.length l ≤ N.to_nat (int key))%nat) →
            get_loop path (key :: keys) node = Raise (InvalidIndex (int key)))).
Proof.
  split_and!; [reflexivity | reflexivity |].
  intros path key keys node Hd. simpl. unfold subscript. rewrite Hd.
  split; [|intros _; split].
  - intros x. destruct node; try discriminate.
    destruct (l !! N.to_nat (int key)) eqn:Hl; [|discriminate].
    intros _. exists l. split; [done|]. by eapply lookup_lt_Some.
  - intros l -> Hlt. destruct (lookup_lt_is_Some_2 l _ Hlt) as [item Hitem].
    exists item. by rewrite Hitem.
  - intros Hout. destruct node; try done.
    by rewrite (proj2 (lookup_ge_None l _) (Hout l eq_refl)).
Qed.

Lemma C2_numeric_segment_witness :
  get_loop "Services.7.Listen" ["7"; "Listen"] (JList [JNull])
  = Raise (InvalidIndex 7).
Proof.
  apply (proj2 (proj2 (proj2 (proj2 C2_numeric_segment)
           "Services.7.Listen" "7" ["Listen"] (JList [JNull]) eq_refl)
           ltac:(apply Nat.leb_le; reflexivity))).
  intros l [= <-]. vm_compute. lia.
Defined.




(** C4, as the code has it.  The empty path is one key, the empty name:
    reading it gives the entry named "" of an object and fails with the
    path-not-found error on anything else; setting it puts the entry ""
    into an object, and fails with the cannot-set error on a document
    that is no object. *)
Theorem C4_empty_path_is_empty_key data v :
  split "" = [""]
  ∧ get_nested_value data ""
    = match data with
      | JDict d =>
          match d !! "" with
          | Some item => Ok item
          | None => Raise (PathNotFound "")
          end
      | _ => Raise (PathNotFound "")
      end
  ∧ set_nested_value data "" v
    = match data with
      | JDict d => (JDict (<["" := v]> d), Ok tt)
      | _ => (data, Raise (InvalidTarget ""))
      end.
Proof.
  split_and!; [done | |].
  - unfold get_nested_value; simpl. unfold subscript; simpl.
    destruct data; try done. by destruct (d !! "").
  - by destruct data.
Qed.

(** C4 as stated fails on the empty object: the empty path has one key,
    reading it raises instead of giving the root back, and setting it
    succeeds and adds an entry. *)
Lemma C4_empty_path_counterexample :
  split "" = [""]
  ∧ get_nested_value (JDict ∅) "" = Raise (PathNotFound "")
  ∧ set_nested_value (JDict ∅) "" (JInt 1) = (JDict {[ "" := JInt 1 ]}, Ok tt).
Proof. split_and!; reflexivity. Qed.



(** C10. A call that raises leaves the document exactly as it was,
    whichever of the three errors it raises. *)
Theorem C10_assign_atomic_on_error data path v data' e :
  set_nested_value data path v = (data', Raise e) → data' = data.
Proof. apply set_nested_value_raise. Qed.

Lemma C10_assign_atomic_on_error_witness :
  ∃ data',
    set_nested_value services_doc "Services.3.Listen" (JInt 1)
    = (data', Raise (InvalidIndex 3))
    ∧ data' = services_doc.
Proof.
  eexists. split; [reflexivity|].
  apply (C10_assign_atomic_on_error services_doc "Services.3.Listen" (JInt 1)
           services_doc (InvalidIndex 3)).
  reflexivity.
Defined.

End PathFacts.

(** ** Part IV: properties of the supervisor *)

Module SupervisorFacts.
Import Supervisor.

Example scan_external :
  find_zbproxy_process external_world
  = Some (Process 4242 (Some "ZBProxy-linux-amd64-v1")).
Proof. reflexivity. Qed.

Example status_idle :
  get_status idle_world
  = (idle_world, Response true (Some stopped_status) None MsgNotRunning).
Proof. reflexivity. Qed.

Example start_idle :
  start_zbproxy healthy_host idle_world
  = (World (Some (MkPopen 4321))
       [Process 1 (Some "systemd"); Process 4321 (Some ZBPROXY_EXECUTABLE)]
       (Some 493%Z),
     Return (Response true None (Some 4321) MsgStarted)).
Proof. reflexivity. Qed.

(** *** The scan *)

Lemma scan_found procs proc :
  scan procs = Some proc →
  proc ∈ procs
  ∧ ∃ n, name proc = Some n
         ∧ contains (lower ZBPROXY_EXECUTABLE) (lower n) = true.
Proof.
  induction procs as [|p rest IH]; simpl; [done|].
  destruct (name p) as [n|] eqn:Hname.
  - destruct (negb (String.eqb n "") && contains _ (lower n)) eqn:Hmatch.
    + intros [= <-]. split; [apply list_elem_of_here|].
      exists n. split; [done|]. by apply andb_true_iff in Hmatch as [_ ?].
    + intros H. destruct (IH H) as [Hin Hn]. split; [|done].
      by apply list_elem_of_further.
  - intros H. destruct (IH H) as [Hin Hn]. split; [|done].
    by apply list_elem_of_further.
Qed.

(** *** The tracked child *)

Lemma tracked_alive_set_tracked_None w : tracked_alive (set_tracked None w) = None.
Proof. done. Qed.

Lemma running_remove w p q :
  running (set_processes (remove_process q (processes w)) w) p = true →
  running w p = true.
Proof.
  unfold running, remove_process; simpl. rewrite !bool_decide_eq_true.
  rewrite !list_elem_of_fmap. intros (x & -> & Hx).
  exists x. split; [done|]. by apply list_elem_of_filter in Hx as [_ ?].
Qed.

Lemma tracked_alive_remove w q :
  tracked_alive w = None →
  tracked_alive (set_processes (remove_process q (processes w)) w) = None.
Proof.
  unfold tracked_alive; simpl. destruct (zbproxy_process w) as [child|]; [|done].
  destruct (running w (popen_pid child)) eqn:Hrun; [done|]. intros _.
  destruct (running (set_processes _ w) (popen_pid child)) eqn:Hrun'; [|done].
  apply running_remove in Hrun'. congruence.
Qed.

Lemma tracked_alive_intro w child :
  zbproxy_process w = Some child →
  popen_pid child ∈ pid <$> processes w →
  tracked_alive w = Some child.
Proof.
  intros Htracked Hin. unfold tracked_alive, running. rewrite Htracked.
  by rewrite bool_decide_eq_true_2.
Qed.

(** [stop_zbproxy] leaves no live tracked child behind. *)
Lemma stop_tracked_clears os w w1 stopped :
  stop_tracked os w = (w1, stopped) → tracked_alive w1 = None.
Proof.
  unfold stop_tracked. destruct (tracked_alive w) as [child|] eqn:Halive.
  - destruct (send_signal_ok os), (wait_ok os), (kill_ok os);
      by intros [= <- _].
  - by intros [= <- _].
Qed.

Lemma stop_found_keeps_cleared os w stopped w1 r :
  tracked_alive w = None →
  stop_found os w stopped = (w1, r) → tracked_alive w1 = None.
Proof.
  intros Hdead. unfold stop_found.
  destruct (find_zbproxy_process w) as [proc|]; [|by intros [= <- _]].
  pose proof (tracked_alive_remove w (pid proc) Hdead) as Hgone.
  destruct (proc_terminate os), (proc_wait_ok os), (proc_kill_ok os),
      (proc_killed_gone os);
    by intros [= <- _].
Qed.

Lemma stop_zbproxy_clears os w w1 r :
  stop_zbproxy os w = (w1, r) → tracked_alive w1 = None.
Proof.
  unfold stop_zbproxy. destruct (stop_tracked os w) as [w0 stopped] eqn:Htracked.
  apply stop_tracked_clears in Htracked.
  destruct (stop_found os w0 stopped) as [w2 [stopped'|e]] eqn:Hfound;
    intros [= <- _]; by eapply stop_found_keeps_cleared.
Qed.

(** With nothing running, [stop_zbproxy] answers success and names no
    pid. *)
Lemma stop_nothing_running os w :
  tracked_alive w = None → find_zbproxy_process w = None →
  stop_zbproxy os w = (w, Return (Response true None None MsgWasNotRunning))
  ∧ stopped_list (Response true None None MsgWasNotRunning) = [].
Proof.
  intros Hdead Hnone. unfold stop_zbproxy, stop_tracked, stop_found.
  by rewrite Hdead, Hnone.
Qed.

(** As long as [proc.terminate()] does not raise [NoSuchProcess],
    [stop_zbproxy] returns a success result. *)
Lemma stop_returns os w :
  proc_terminate os ≠ TerminateNoSuchProcess →
  ∃ w' r, stop_zbproxy os w = (w', Return r) ∧ success r = true.
Proof.
  intros Hterm. unfold stop_zbproxy.
  destruct (stop_tracked os w) as [w0 stopped]. unfold stop_found.
  destruct (find_zbproxy_process w0) as [proc|].
  - destruct (proc_terminate os), (proc_wait_ok os), (proc_kill_ok os),
      (proc_killed_gone os);
      try done; eexists _, _; (split; [reflexivity|]);
      unfold stop_response; by destruct stopped.
  - eexists _, _. split; [reflexivity|]. by destruct stopped.
Qed.

(** *** The claims on the supervisor *)

(** C6. [start_zbproxy] called while the tracked child is alive, or while
    the scan finds a process of the executable's name, answers
    "already running" with success false and leaves the world as it was:
    nothing is spawned and the tracked child is the same.  So of two calls
    in a row, when the first succeeds it gives the pid of the child it
    tracks, and the second answers "already running" with that pid and
    changes nothing. *)
Theorem C6_start_already_running :
  (∀ os w child,
     tracked_alive w = Some child →
     start_zbproxy os w
     = (w, Return (Response false None (Some (popen_pid child)) MsgAlreadyRunning)))
  ∧ (∀ os w proc,
       tracked_alive w = None → find_zbproxy_process w = Some proc →
       start_zbproxy os w
       = (w, Return (Response false None None (MsgAlreadyRunningPid (pid proc)))))
  ∧ (∀ os1 os2 w w1 r,
       start_zbproxy os1 w = (w1, Return r) → success r = true →
       ∃ child,
         res_pid r = Some child
         ∧ zbproxy_process w1 = Some (MkPopen child)
         ∧ start_zbproxy os2 w1
           = (w1, Return (Response false None (Some child) MsgAlreadyRunning))).
Proof.
  split_and!.
  - intros os w child Halive. unfold start_zbproxy. by rewrite Halive.
  - intros os w proc Hdead Hfound. unfold start_zbproxy. by rewrite Hdead, Hfound.
  - intros os1 os2 w w1 r. unfold start_zbproxy at 1.
    destruct (tracked_alive w) as [c|]; [by intros [= <- <-]|].
    destruct (find_zbproxy_process w) as [proc|]; [by intros [= <- <-]|].
    destruct (executable w) as [mode|]; [|done].
    destruct (spawn os1) as [| | |child [|]]; try done.
    intros [= <- <-] _. exists child. split_and!; [done | done |].
    unfold start_zbproxy.
    rewrite (tracked_alive_intro _ (MkPopen child)); [done | done |].
    simpl. rewrite fmap_app. apply elem_of_app. right. apply list_elem_of_here.
Qed.

Lemma C6_start_already_running_witness :
  ∃ w1,
    start_zbproxy healthy_host idle_world
    = (w1, Return (Response true None (Some 4321) MsgStarted))
    ∧ start_zbproxy healthy_host w1
      = (w1, Return (Response false None (Some 4321) MsgAlreadyRunning)).
Proof.
  eexists. split; [reflexivity|].
  destruct (proj2 (proj2 C6_start_already_running)
              healthy_host healthy_host idle_world _ _ eq_refl eq_refl)
    as (child & Hpid & _ & Hsecond).
  injection Hpid as <-. exact Hsecond.
Defined.

(** C7. When no tracked child is alive and the scan finds a process of
    the executable's name, [get_status] answers "running, started
    outside" with the pid of that process, which is one of the running
    processes, and clears the tracked reference; no call of
    [start_zbproxy] is needed before. *)
Theorem C7_status_reports_external w proc :
  tracked_alive w = None →
  find_zbproxy_process w = Some proc →
  get_status w
  = (set_tracked None w,
     Response true (Some running_status) (Some (pid proc)) MsgRunningExternal)
  ∧ zbproxy_process (get_status w).1 = None
  ∧ proc ∈ processes w
  ∧ ∃ n, name proc = Some n
         ∧ contains (lower ZBPROXY_EXECUTABLE) (lower n) = true.
Proof.
  intros Hdead Hfound. unfold get_status. rewrite Hdead, Hfound.
  split_and!; [done | done | |]; by apply scan_found in Hfound as [? ?].
Qed.

Lemma C7_status_reports_external_witness :
  get_status external_world
  = (external_world,
     Response true (Some running_status) (Some 4242) MsgRunningExternal).
Proof.
  apply (C7_status_reports_external external_world
           (Process 4242 (Some "ZBProxy-linux-amd64-v1")));
    reflexivity.
Defined.

(** C8, where the code departs from it.  When the process found by the
    scan is gone before [proc.terminate()] runs, [psutil.NoSuchProcess]
    is none of the exceptions the handler names, and [stop_zbproxy] ends
    with that exception instead of a result. *)
Theorem C8_stop_raises_when_process_vanishes :
  stop_zbproxy vanishing_host external_world = (idle_world, Raised NoSuchProcess).
Proof. reflexivity. Qed.

(** C9, as the code has it.  After a [stop_zbproxy] that returned, no
    tracked child is alive, and [restart_zbproxy] ends as [start_zbproxy]
    does: an exception of the start goes through as it is (the 404 of a
    missing executable among them), and a start result without success
    becomes a result without success whose message quotes the start's.
    Nothing of the stop's result enters. *)
Theorem C9_restart_reports_start_failure os1 os2 w w1 stop_result :
  stop_zbproxy os1 w = (w1, Return stop_result) →
  tracked_alive w1 = None
  ∧ (∀ w2 e, start_zbproxy os2 w1 = (w2, Raised e) →
             restart_zbproxy os1 os2 w = (w2, Raised e))
  ∧ (∀ w2 r, start_zbproxy os2 w1 = (w2, Return r) → success r = false →
             restart_zbproxy os1 os2 w
             = (w2, Return (Response false None None
                              (MsgRestartFailed (res_message r)))))
  ∧ (find_zbproxy_process w1 = None → executable w1 = None →
     restart_zbproxy os1 os2 w
     = (w1, Raised (HTTPException 404 ExecutableNotFound))).
Proof.
  intros Hstop. pose proof (stop_zbproxy_clears _ _ _ _ Hstop) as Hdead.
  unfold restart_zbproxy. rewrite Hstop. split_and!; [done | | |].
  - by intros w2 e ->.
  - by intros w2 r -> ->.
  - intros Hnone Hmissing. unfold start_zbproxy.
    by rewrite Hdead, Hnone, Hmissing.
Qed.

Lemma C9_restart_reports_start_failure_witness :
  restart_zbproxy calm_host healthy_host orphaned_world
  = (bare_world, Raised (HTTPException 404 ExecutableNotFound)).
Proof.
  apply (proj2 (proj2 (proj2
           (C9_restart_reports_start_failure calm_host healthy_host orphaned_world
              bare_world (Response true None None (MsgStopped [100])) eq_refl))));
    reflexivity.
Defined.

(** C9 as stated fails: the stop inside the restart names pid 100 on the
    first world and nothing on the second, and the restart ends the same
    on both, with the exception of the start and no list of pids. *)
Lemma C9_restart_result_counterexample :
  stop_zbproxy calm_host orphaned_world
  = (bare_world, Return (Response true None None (MsgStopped [100])))
  ∧ stop_zbproxy calm_host bare_world
    = (bare_world, Return (Response true None None MsgWasNotRunning))
  ∧ restart_zbproxy calm_host healthy_host orphaned_world
    = (bare_world, Raised (HTTPException 404 ExecutableNotFound))
  ∧ restart_zbproxy calm_host healthy_host bare_world
    = (bare_world, Raised (HTTPException 404 ExecutableNotFound)).
Proof. split_and!; reflexivity. Qed.

End SupervisorFacts.

(** ** Part V: laws of the path functions *)

Module PathLaws.
Import PathAccessor PathUpdate.

(** *** Splitting *)

Lemma split_app p q :
  split (p +:+ String "." q) = split p ++ split q.
Proof.
  induction p as [|c p IH]; simpl; [done|].
  destruct (Ascii.eqb c "."); [by rewrite IH|].
  rewrite IH. pose proof (PathFacts.split_nonempty p) as Hne.
  by destruct (split p).
Qed.

Lemma split_no_dot path piece :
  piece ∈ split path → has_dot piece = false.
Proof.
  revert piece. induction path as [|c path IH]; intros piece; simpl.
  - by intros ->%list_elem_of_singleton.
  - destruct (Ascii.eqb c ".") eqn:Hc.
    + intros [->|Hin]%elem_of_cons; [done | by apply IH].
    + destruct (split path) as [|first rest] eqn:Hsplit.
      * intros ->%list_elem_of_singleton. simpl. by rewrite Hc.
      * intros [->|Hin]%elem_of_cons.
        -- simpl. rewrite Hc. apply IH, list_elem_of_here.
        -- by apply IH, list_elem_of_further.
Qed.

(** *** The call as a function on values *)

Lemma fill_fill node seg x y :
  fill (Frame (fill (Frame node seg) y) seg) x = fill (Frame node seg) x.
Proof.
  unfold fill; simpl. destruct node, seg; try done; simpl.
  - by rewrite list_insert_insert_eq.
  - by rewrite insert_insert_eq.
Qed.

Lemma set_last_assign path last_key v s :
  set_last path last_key v s
  = match assign_last path last_key v (current s) with
    | Ok node => (Store (above s) node, Ok tt)
    | Raise e => (s, Raise e)
    end.
Proof.
  unfold set_last, assign_last, bind, read_current, write_current, raise.
  destruct (isdigit last_key), (current s); try done.
  by destruct (l !! N.to_nat (int last_key)).
Qed.

Lemma set_run_assign path last_key v keys s s' r :
  bind (set_loop path keys) (fun _ => set_last path last_key v) s = (s', r) →
  match assign path keys last_key v (current s) with
  | Ok node => r = Ok tt ∧ document s' = plug (above s) node
  | Raise e => r = Raise e ∧ document s' = document s
  end.
Proof.
  revert s. induction keys as [|key keys IH]; intros s; simpl.
  - unfold bind, ret. rewrite set_last_assign.
    destruct (assign_last path last_key v (current s)); by intros [= <- <-].
  - unfold bind, read_current, lift, move_to.
    destruct (subscript path key (current s)) as [item|e] eqn:Hsub;
      [|by intros [= <- <-]].
    intros Hrun.
    specialize (IH (Store (Frame (current s) (segment_of key) :: above s) item)).
    unfold bind in IH. specialize (IH Hrun). simpl in IH.
    destruct (assign path keys last_key v item) as [item'|e];
      destruct IH as [-> ->]; (split; [done|]).
    + done.
    + unfold document; simpl. by rewrite (PathFacts.fill_subscript _ _ _ _ Hsub).
Qed.

(** The document a call leaves is the one the function computes, and the
    old one when the function raises. *)
Lemma set_nested_value_assign data path v :
  set_nested_value data path v
  = match assign path (removelast (split path)) (List.last (split path) "") v data with
    | Ok data' => (data', Ok tt)
    | Raise e => (data, Raise e)
    end.
Proof.
  unfold set_nested_value, set_body.
  destruct (bind _ _ (Store [] data)) as [s' r] eqn:Hrun.
  apply set_run_assign in Hrun. simpl in Hrun.
  destruct (assign path _ _ v data); destruct Hrun as [-> ->]; done.
Qed.

Lemma get_loop_ok_path path path' keys node x :
  get_loop path keys node = Ok x → get_loop path' keys node = Ok x.
Proof.
  revert node. induction keys as [|key keys IH]; intros node; simpl; [done|].
  destruct (subscript path key node) as [item|e] eqn:Hsub; [|done].
  rewrite (PathFacts.subscript_segment path path' key key node item eq_refl Hsub).
  apply IH.
Qed.

Lemma assign_last_same path k v node :
  subscript path k node = Ok v → assign_last path k v node = Ok node.
Proof.
  unfold subscript, assign_last. destruct (isdigit k), node; try done.
  - destruct (l !! N.to_nat (int k)) eqn:Hl; [|done]. intros [= ->].
    by rewrite list_insert_id.
  - destruct (d !! k) eqn:Hd; [|done]. intros [= ->]. by rewrite insert_id.
Qed.

Lemma assign_same path keys k v node :
  get_loop path (keys ++ [k]) node = Ok v →
  assign path keys k v node = Ok node.
Proof.
  revert node. induction keys as [|key keys IH]; intros node; simpl.
  - destruct (subscript path k node) as [item|e] eqn:Hsub; [|done].
    intros [= ->]. by apply assign_last_same.
  - destruct (subscript path key node) as [item|e] eqn:Hsub; [|done].
    intros Hget. rewrite (IH _ Hget).
    by rewrite (PathFacts.fill_subscript _ _ _ _ Hsub).
Qed.

Lemma assign_last_twice path k v1 v2 node node1 :
  assign_last path k v1 node = Ok node1 →
  assign_last path k v2 node1 = assign_last path k v2 node.
Proof.
  unfold assign_last. destruct (isdigit k), node; try done.
  - destruct (l !! N.to_nat (int k)) eqn:Hl; [|done]. intros [= <-].
    rewrite list_lookup_insert_eq by (by eapply lookup_lt_Some).
    by rewrite list_insert_insert_eq.
  - intros [= <-]. by rewrite insert_insert_eq.
Qed.

Lemma assign_twice path keys k v1 v2 node node1 :
  assign path keys k v1 node = Ok node1 →
  assign path keys k v2 node1 = assign path keys k v2 node.
Proof.
  revert node node1. induction keys as [|key keys IH]; intros node node1; simpl.
  - apply assign_last_twice.
  - destruct (subscript path key node) as [item|e] eqn:Hsub; [|done].
    destruct (assign path keys k v1 item) as [item1|e] eqn:Hfirst; [|done].
    intros [= <-].
    rewrite (PathFacts.subscript_fill _ path _ _ _ item1 Hsub).
    rewrite (IH _ _ Hfirst).
    destruct (assign path keys k v2 item) as [item2|e]; [|done].
    by rewrite fill_fill.
Qed.

(** Whether a call succeeds does not depend on the value written. *)
Lemma assign_any_value path keys k v1 v2 node node1 :
  assign path keys k v1 node = Ok node1 →
  ∃ node2, assign path keys k v2 node = Ok node2.
Proof.
  revert node node1. induction keys as [|key keys IH]; intros node node1; simpl.
  - unfold assign_last. destruct (isdigit k), node; try done; try by eexists.
    destruct (l !! N.to_nat (int k)); [by eexists | done].
  - destruct (subscript path key node) as [item|e] eqn:Hsub; [|done].
    destruct (assign path keys k v1 item) as [item1|e] eqn:Hfirst; [|done].
    intros _. destruct (IH _ _ Hfirst) as [item2 ->]. by eexists.
Qed.

(** *** Laws *)

(** Reading under a prefix: a path made of [p], a dot and [q] resolves
    exactly when [p] resolves and [q] resolves in what [p] gives, and to
    the same value. *)
Theorem get_nested_value_compose data p q x :
  get_nested_value data (p +:+ String "." q) = Ok x
  ↔ ∃ y, get_nested_value data p = Ok y ∧ get_nested_value y q = Ok x.
Proof.
  unfold get_nested_value. rewrite split_app, PathFacts.get_loop_app. split.
  - destruct (get_loop _ (split p) data) as [y|e] eqn:Hp; [|done].
    intros Hq. exists y. split.
    + by apply get_loop_ok_path with (p +:+ String "." q).
    + by apply get_loop_ok_path with (p +:+ String "." q).
  - intros (y & Hp & Hq).
    rewrite (get_loop_ok_path p (p +:+ String "." q) _ _ _ Hp).
    by apply get_loop_ok_path with q.
Qed.

(** Writing back what is there changes nothing: when [path] reads [v],
    setting [path] to [v] succeeds and leaves the document as it is. *)
Theorem set_what_was_read data path v :
  get_nested_value data path = Ok v →
  set_nested_value data path v = (data, Ok tt).
Proof.
  unfold get_nested_value. rewrite PathFacts.split_init_last at 1. intros Hget.
  rewrite set_nested_value_assign. by rewrite (assign_same _ _ _ _ _ Hget).
Qed.

Lemma set_what_was_read_witness :
  set_nested_value services_doc "Services.0.Listen" (JInt 25565)
  = (services_doc, Ok tt).
Proof. apply set_what_was_read. reflexivity. Defined.

(** The last write wins: after a successful write at [path], a second
    write at [path] ends as it would have on the first document. *)
Theorem set_twice data path v1 v2 data1 :
  set_nested_value data path v1 = (data1, Ok tt) →
  set_nested_value data1 path v2 = set_nested_value data path v2.
Proof.
  rewrite !set_nested_value_assign.
  destruct (assign path _ _ v1 data) as [d1|e] eqn:Hfirst; [|done].
  intros [= <-]. rewrite (assign_twice _ _ _ _ _ _ _ Hfirst).
  by destruct (assign_any_value _ _ _ _ v2 _ _ Hfirst) as [d2 ->].
Qed.

Lemma set_twice_witness :
  set_nested_value
    (JDict {[ "Services" := JList [JDict {[ "Listen" := JInt 25577 ]}] ]})
    "Services.0.Listen" (JInt 25588)
  = set_nested_value services_doc "Services.0.Listen" (JInt 25588).
Proof.
  apply (set_twice services_doc "Services.0.Listen" (JInt 25577)).
  vm_compute. reflexivity.
Defined.

Lemma get_nested_value_compose_witness :
  get_nested_value services_doc "Services.0.Listen" = Ok (JInt 25565).
Proof.
  apply (proj2 (get_nested_value_compose services_doc "Services" "0.Listen" _)).
  eexists. split; reflexivity.
Defined.

(** An entry of the root object whose name is all digits, or has a dot in
    it, is out of reach of every path: no read depends on it, and no
    write changes it. *)
Theorem unreachable_entries d k path v :
  isdigit k = true ∨ has_dot k = true →
  get_nested_value (JDict (delete k d)) path = get_nested_value (JDict d) path
  ∧ ∃ d', (set_nested_value (JDict d) path v).1 = JDict d' ∧ d' !! k = d !! k.
Proof.
  intros Hk.
  assert (Hfirst : ∀ key, key ∈ split path → isdigit key = false → key ≠ k).
  { intros key Hin Hname ->. destruct Hk as [Hk|Hk]; [congruence|].
    apply split_no_dot in Hin. congruence. }
  split.
  - unfold get_nested_value.
    destruct (split path) as [|key keys] eqn:Hsplit;
      [by apply PathFacts.split_nonempty in Hsplit|].
    simpl. unfold subscript. destruct (isdigit key) eqn:Hkey; [done|].
    rewrite lookup_delete_ne; [done|].
    intros Heq. apply (Hfirst key); [apply list_elem_of_here | done | congruence].
  - rewrite set_nested_value_assign.
    rewrite (PathFacts.split_init_last path) in Hfirst.
    destruct (removelast (split path)) as [|key keys]; simpl.
    + unfold assign_last.
      destruct (isdigit (List.last (split path) "")) eqn:Hlast;
        [by exists d|].
      eexists. split; [done|]. rewrite lookup_insert_ne; [done|].
      apply Hfirst; [apply list_elem_of_here | done].
    + unfold subscript, fill, segment_of. destruct (isdigit key) eqn:Hkey;
        [by exists d|].
      destruct (d !! key); [|by exists d].
      destruct (assign path keys _ v v0); [|by exists d]. simpl.
      eexists. split; [done|]. rewrite lookup_insert_ne; [done|].
      apply Hfirst; [apply list_elem_of_here | done].
Qed.

Lemma unreachable_entries_witness :
  get_nested_value
    (JDict (delete "a.b" {[ "a.b" := JInt 1; "Log" := JNull ]})) "a.b"
  = get_nested_value (JDict {[ "a.b" := JInt 1; "Log" := JNull ]}) "a.b".
Proof.
  apply (proj1 (unreachable_entries
                  {[ "a.b" := JInt 1; "Log" := JNull ]} "a.b" "a.b" JNull
                  (or_intror eq_refl))).
Defined.

(** The exception of a failed read, on a path of plain keys, names the
    kind of key that failed: an invalid index is the number of a numeric
    key of the path, and a path-not-found quotes the whole path and comes
    from a key that is not numeric.  Such a read never raises the
    cannot-set error. *)
Theorem get_nested_value_error data path e :
  plain_path path = true →
  get_nested_value data path = Raise e →
  (∃ key, key ∈ split path ∧ isdigit key = true ∧ e = InvalidIndex (int key))
  ∨ (∃ key, key ∈ split path ∧ isdigit key = false ∧ e = PathNotFound path).
Proof.
  intros _.
  unfold get_nested_value. generalize (split path) as keys. intros keys.
  revert data. induction keys as [|key keys IH]; intros data; simpl; [done|].
  destruct (subscript path key data) as [item|e'] eqn:Hsub.
  - intros Hrest. destruct (IH _ Hrest) as [(k & Hin & Hk)|(k & Hin & Hk)];
      [left | right]; exists k; (split; [by apply list_elem_of_further | done]).
  - intros [= ->]. revert Hsub. unfold subscript.
    destruct (isdigit key) eqn:Hkey.
    + intros He. left. exists key. split; [apply list_elem_of_here|].
      split; [done|]. destruct data as [| | | | |l|d];
        try (by injection He as <-).
      destruct (l !! N.to_nat (int key)); [done | by injection He as <-].
    + intros He. right. exists key. split; [apply list_elem_of_here|].
      split; [done|]. destruct data as [| | | | |l|d];
        try (by injection He as <-).
      destruct (d !! key); [done | by injection He as <-].
Qed.

Lemma get_nested_value_error_witness :
  (∃ key, key ∈ split "Services.0.Listen" ∧ isdigit key = true
          ∧ InvalidIndex 0 = InvalidIndex (int key))
  ∨ (∃ key, key ∈ split "Services.0.Listen" ∧ isdigit key = false
            ∧ InvalidIndex 0 = PathNotFound "Services.0.Listen").
Proof.
  apply (get_nested_value_error no_services_doc "Services.0.Listen");
    reflexivity.
Defined.

(** When a write on a path of plain keys succeeds: exactly when the keys
    before the last resolve, and the node they reach is a list with the
    last key as an index within it, or an object and the last key is not
    numeric. *)
Theorem set_nested_value_succeeds data path v :
  plain_path path = true →
  (∃ data', set_nested_value data path v = (data', Ok tt))
  ↔ ∃ node,
      get_loop path (removelast (split path)) data = Ok node
      ∧ let last_key := List.last (split path) "" in
        if isdigit last_key
        then ∃ l, node = JList l ∧ (N.to_nat (int last_key) < List.length l)%nat
        else ∃ d, node = JDict d.
Proof.
  intros _. rewrite set_nested_value_assign.
  generalize (removelast (split path)) as keys.
  generalize (List.last (split path) "") as k. intros k keys.
  assert (Hlast : ∀ node,
    (∃ node', assign_last path k v node = Ok node')
    ↔ if isdigit k
      then ∃ l, node = JList l ∧ (N.to_nat (int k) < List.length l)%nat
      else ∃ d, node = JDict d).
  { intros node. unfold assign_last. destruct (isdigit k), node;
      try (split; [by intros [? ?] | by intros (? & ? & ?) || by intros [? ?]]).
    - destruct (l !! N.to_nat (int k)) eqn:Hl.
      + split; [|by eexists]. intros _. exists l. split; [done|].
        by eapply lookup_lt_Some.
      + split; [by intros [? ?]|]. intros (l' & [= <-] & Hlt).
        apply lookup_ge_None in Hl. lia.
    - split; [|by eexists]. intros _. by exists d. }
  assert (Hgen : ∀ node,
    (∃ node', assign path keys k v node = Ok node')
    ↔ ∃ reached, get_loop path keys node = Ok reached
                 ∧ ∃ node', assign_last path k v reached = Ok node').
  { induction keys as [|key keys IH]; intros node; simpl.
    - split; [intros H; by exists node | by intros (? & [= <-] & ?)].
    - destruct (subscript path key node) as [item|e];
        [|split; [by intros [? ?] | by intros (? & ? & ?)]].
      rewrite <- IH. split.
      + intros [node' H]. destruct (assign path keys k v item); [by eexists|done].
      + intros [item' ->]. by eexists. }
  split.
  - intros [data' H].
    destruct (assign path keys k v data) as [d|e] eqn:Ha; [|done].
    destruct (proj1 (Hgen data) (ex_intro _ d Ha)) as (reached & Hget & Hl).
    exists reached. split; [done|]. by apply Hlast.
  - intros (node & Hget & Hshape).
    destruct (proj2 (Hgen data)) as [d ->]; [|by eexists].
    exists node. split; [done|]. by apply Hlast.
Qed.

Lemma set_nested_value_succeeds_witness :
  ∃ data', set_nested_value (JDict ∅) "NewField" (JInt 1) = (data', Ok tt).
Proof.
  apply (proj2 (set_nested_value_succeeds (JDict ∅) "NewField" (JInt 1)
                  eq_refl)).
  exists (JDict ∅). split; [reflexivity|]. by exists ∅.
Defined.

End PathLaws.

(** ** Part VI: properties of the configuration endpoints *)

Module ConfigFacts.
Import PathAccessor ConfigStore.

(** *** Names in a list of entries *)

Lemma has_name_true name entry :
  has_name name entry = Return true →
  names_of [entry] = [name].
Proof.
  unfold has_name, names_of. destruct entry as [| | | | | |d]; try done. simpl.
  destruct (d !! "Name") as [[| | | |n| |]|]; try done.
  destruct (String.eqb n name) eqn:Heq; [|done].
  apply String.eqb_eq in Heq as ->. done.
Qed.

Lemma has_name_false name entry :
  has_name name entry = Return false →
  name ∉ names_of [entry].
Proof.
  unfold has_name, names_of. destruct entry as [| | | | | |d]; try done. simpl.
  destruct (d !! "Name") as [[| | | |n| |]|]; try (intros _; apply not_elem_of_nil).
  destruct (String.eqb n name) eqn:Heq; [done|]. intros _.
  apply String.eqb_neq in Heq. intros ->%list_elem_of_singleton. done.
Qed.

Lemma names_of_cons entry entries :
  names_of (entry :: entries) = names_of [entry] ++ names_of entries.
Proof. unfold names_of. simpl. by destruct (match entry with JDict _ => _ | _ => _ end). Qed.

Lemma names_of_app entries entries' :
  names_of (entries ++ entries') = names_of entries ++ names_of entries'.
Proof. apply omap_app. Qed.

Lemma name_taken_false name entries :
  name_taken name entries = Return false → name ∉ names_of entries.
Proof.
  induction entries as [|entry entries IH]; cbn [name_taken];
    [intros _; apply not_elem_of_nil|].
  destruct (has_name name entry) as [[|]|e] eqn:Hname; try done.
  intros Hrest. rewrite names_of_cons. apply not_elem_of_app. split.
  - by apply has_name_false.
  - by apply IH.
Qed.

Lemma name_taken_app_taken name entries entry :
  name_taken name entries = Return false →
  has_name name entry = Return true →
  name_taken name (entries ++ [entry]) = Return true.
Proof.
  intros Hfree Hentry. induction entries as [|e entries IH]; simpl in *.
  - by rewrite Hentry.
  - destruct (has_name name e) as [[|]|]; try done. by apply IH.
Qed.

Lemma drop_named_app_taken name entries entry :
  name_taken name entries = Return false →
  has_name name entry = Return true →
  drop_named name (entries ++ [entry]) = Return entries.
Proof.
  intros Hfree Hentry. induction entries as [|e entries IH]; simpl in *.
  - by rewrite Hentry.
  - destruct (has_name name e) as [[|]|]; try done. by rewrite IH.
Qed.

(** What [drop_named] keeps: the entries not of that name, in their order. *)
Lemma drop_named_kept name entries kept :
  drop_named name entries = Return kept →
  kept `sublist_of` entries
  ∧ names_of kept = filter (fun n => n ≠ name) (names_of entries)
  ∧ (List.length kept = List.length entries ↔ name ∉ names_of entries).
Proof.
  revert kept. induction entries as [|entry entries IH]; intros kept;
    cbn [drop_named].
  - intros [= <-]. split_and!; [done | done |]. split; [|done].
    intros _. apply not_elem_of_nil.
  - destruct (has_name name entry) as [named|e] eqn:Hname; [|done].
    destruct (drop_named name entries) as [kept'|e]; [|done].
    destruct (IH kept' eq_refl) as (Hsub & Hnames & Hlen).
    intros [= <-]. rewrite (names_of_cons entry entries), filter_app.
    destruct named.
    + rewrite (has_name_true _ _ Hname).
      rewrite filter_cons_False by (intros H; by apply H). simpl.
      split_and!; [by apply sublist_cons | done |]. split.
      * intros Heq. apply sublist_length in Hsub. simpl in Heq. lia.
      * intros Hnot. exfalso. apply Hnot. by left.
    + split_and!.
      * by apply sublist_skip.
      * rewrite names_of_cons, Hnames. f_equal.
        pose proof (has_name_false _ _ Hname) as Hnot.
        clear -Hnot. induction (names_of [entry]) as [|n ns IHn]; [done|].
        rewrite filter_cons_True.
        -- f_equal. apply IHn. intros Hin. apply Hnot. by right.
        -- intros ->. apply Hnot. by left.
      * simpl. rewrite not_elem_of_app. split.
        -- intros [= Heq]. split; [by apply has_name_false | by apply Hlen].
        -- intros [_ Hnot]. f_equal. by apply Hlen.
Qed.

Lemma drop_named_filter name entries kept :
  drop_named name entries = Return kept →
  forallb is_dict entries = true
  ∧ kept = List.filter (other_name name) entries.
Proof.
  revert kept. induction entries as [|entry entries IH]; intros kept;
    cbn [drop_named].
  - by intros [= <-].
  - unfold other_name. cbn [List.filter forallb].
    destruct (has_name name entry) as [named|e] eqn:Hname; [|done].
    destruct (drop_named name entries) as [kept'|e]; [|done].
    destruct (IH kept' eq_refl) as (Hdicts & ->).
    intros [= <-]. split.
    + rewrite Hdicts. by destruct entry.
    + by destruct named.
Qed.

Lemma drop_named_dicts name entries :
  Forall (fun entry => ∃ d, entry = JDict d) entries →
  ∃ kept, drop_named name entries = Return kept.
Proof.
  induction 1 as [|entry entries [d ->] _ [kept IH]]; cbn [drop_named].
  - by eexists.
  - unfold has_name. rewrite IH.
    destruct (d !! "Name") as [[| | | |n| |]|]; by eexists.
Qed.

Lemma service_has_name service :
  has_name (Name service) (JDict (service_dict service)) = Return true.
Proof.
  unfold has_name, service_dict. rewrite lookup_insert_eq.
  by rewrite String.eqb_refl.
Qed.

Lemma outbound_has_name outbound :
  has_name (OutName outbound) (JDict (outbound_dict outbound)) = Return true.
Proof.
  unfold has_name, outbound_dict. rewrite lookup_insert_eq.
  by rewrite String.eqb_refl.
Qed.

(** *** The shared bodies *)

Lemma add_entry_ok os section name entry taken added file file' r :
  add_entry os section name entry taken added file = (file', Return r) →
  ∃ config entries,
    file = FileHolds (JDict config)
    ∧ default (JList []) (config !! section) = JList entries
    ∧ name_taken name entries = Return false
    ∧ os = SaveDone
    ∧ file' = FileHolds (JDict (<[section := JList (entries ++ [JDict entry])]> config))
    ∧ r = added.
Proof.
  unfold add_entry, load_config.
  destruct file as [| | | |[| | | | | |config]]; try done.
  destruct (default (JList []) (config !! section)) as [| | | | |entries|] eqn:Hsec;
    try done.
  destruct (name_taken name entries) as [[|]|] eqn:Hfree; try done.
  destruct os; try done. simpl. intros [= <- <-].
  by exists config, entries.
Qed.

Lemma delete_entry_ok os section name no_section not_found deleted file file' r :
  delete_entry os section name no_section not_found deleted file = (file', Return r) →
  ∃ config entries kept,
    file = FileHolds (JDict config)
    ∧ config !! section = Some (JList entries)
    ∧ drop_named name entries = Return kept
    ∧ List.length kept ≠ List.length entries
    ∧ os = SaveDone
    ∧ file' = FileHolds (JDict (<[section := JList kept]> config))
    ∧ r = deleted.
Proof.
  unfold delete_entry, load_config.
  destruct file as [| | | |config]; try done.
  destruct (section_missing section config) as [[|]|]; try done.
  destruct config as [| | | | | |config]; try done.
  destruct (config !! section) as [[| | | |s|entries|d]|] eqn:Hsec; try done.
  - by destruct (String.eqb s "").
  - destruct (drop_named name entries) as [kept|] eqn:Hdrop; [|done].
    destruct (Nat.eqb (List.length kept) (List.length entries)) eqn:Hlen; [done|].
    apply Nat.eqb_neq in Hlen.
    destruct os; try done. simpl. intros [= <- <-].
    by exists config, entries, kept.
  - by case_bool_decide.
Qed.

Lemma add_entry_twice os os' section name entry taken added file file1 r :
  has_name name (JDict entry) = Return true →
  add_entry os section name entry taken added file = (file1, Return r) →
  add_entry os' section name entry taken added file1
  = (file1, Raised (HTTPException 400 taken)).
Proof.
  intros Hname Hadd.
  destruct (add_entry_ok _ _ _ _ _ _ _ _ _ Hadd)
    as (config & entries & -> & Hsec & Hfree & -> & -> & ->).
  unfold add_entry, load_config. rewrite lookup_insert_eq. simpl.
  by rewrite (name_taken_app_taken _ _ _ Hfree Hname).
Qed.

Lemma add_then_delete_entry os section name entry taken added
    no_section not_found deleted file file1 r :
  has_name name (JDict entry) = Return true →
  add_entry os section name entry taken added file = (file1, Return r) →
  ∃ config entries,
    file = FileHolds (JDict config)
    ∧ default (JList []) (config !! section) = JList entries
    ∧ delete_entry SaveDone section name no_section not_found deleted file1
      = (FileHolds (JDict (<[section := JList entries]> config)), Return deleted).
Proof.
  intros Hname Hadd.
  destruct (add_entry_ok _ _ _ _ _ _ _ _ _ Hadd)
    as (config & entries & -> & Hsec & Hfree & -> & -> & ->).
  exists config, entries. split_and!; [done | done |].
  unfold delete_entry, load_config, section_missing.
  rewrite lookup_insert_eq. rewrite bool_decide_eq_false_2 by done.
  rewrite (drop_named_app_taken _ _ _ Hfree Hname).
  rewrite length_app. simpl.
  destruct (Nat.eqb_spec (List.length entries) (List.length entries + 1)); [lia|].
  simpl. by rewrite insert_insert_eq.
Qed.

(** *** The value endpoints *)

(** A value put through [PUT /config] is the value [GET /config/{path}]
    gives next. *)
Theorem update_then_get os path v file file' r :
  update_config_value os path v file = (file', Return r) →
  r = UpdatedReply path v
  ∧ get_config_value path file' = Return (ValueReply path v).
Proof.
  unfold update_config_value, get_config_value, load_config.
  destruct file as [| | | |config]; try done.
  destruct (set_nested_value config path v) as [config' [[]|e]] eqn:Hset;
    [|done].
  destruct os; try done. simpl. intros [= <- <-].
  by rewrite (PathFacts.set_then_get _ _ _ _ Hset).
Qed.

Lemma update_then_get_witness :
  get_config_value "NewField"
    (FileHolds (JDict {[ "NewField" := JInt 7 ]}))
  = Return (ValueReply "NewField" (JInt 7)).
Proof.
  apply (update_then_get SaveDone "NewField" (JInt 7) (FileHolds (JDict ∅))
           _ (UpdatedReply "NewField" (JInt 7))).
  reflexivity.
Defined.

(** [PUT /config] that raises has not changed the file, whatever the
    reason (no file, a file that does not parse, a path that does not
    resolve, a failed [open]) - but for a dump that broke off, which
    leaves a file that does not parse. *)
Theorem update_failure_keeps_file os path v file file' e :
  update_config_value os path v file = (file', Raised e) →
  file' = file
  ∨ (os = SaveDumpFails ∧ file' = FileMalformed
     ∧ e = HTTPException 500 SaveFailed).
Proof.
  unfold update_config_value, load_config.
  destruct file as [| | | |config]; try (intros [= <- _]; by left).
  destruct (set_nested_value config path v) as [config' [[]|e']];
    [|intros [= <- _]; by left].
  destruct os; simpl; intros [= <- <-]; [by left | by right].
Qed.

Lemma update_failure_keeps_file_witness :
  FileHolds (JDict ∅) = FileHolds (JDict ∅)
  ∨ (SaveDone = SaveDumpFails ∧ FileHolds (JDict ∅) = FileMalformed
     ∧ HTTPException 400 (PathFailure (PathNotFound "A.B"))
       = HTTPException 500 SaveFailed).
Proof.
  apply (update_failure_keeps_file SaveDone "A.B" (JInt 1) (FileHolds (JDict ∅))).
  reflexivity.
Defined.

(** [PUT /config] at one path leaves what [GET /config/{other}] answers
    unchanged, for every path that parts from the one written, both of
    plain keys. *)
Theorem update_keeps_other_paths os path v file file' r other :
  plain_path path = true → plain_path other = true →
  update_config_value os path v file = (file', Return r) →
  diverges (split path) (split other) = true →
  get_config_value other file' = get_config_value other file.
Proof.
  intros _ _. unfold update_config_value, get_config_value, load_config.
  destruct file as [| | | |config]; try done.
  destruct (set_nested_value config path v) as [config' [[]|e]] eqn:Hset;
    [|done].
  destruct os; try done. simpl. intros [= <- <-] Hdiv.
  unfold get_nested_value.
  by rewrite (PathFacts.set_nested_value_frame _ _ _ _ other _ Hset Hdiv).
Qed.

Lemma update_keeps_other_paths_witness :
  get_config_value "Log.Colorful"
    (FileHolds
       (JDict {[ "Log" := JDict {[ "Level" := JStr "debug"; "Colorful" := JBool true ]};
                 "Services" := JList [] ]}))
  = get_config_value "Log.Colorful" (FileHolds log_doc).
Proof.
  apply (update_keeps_other_paths SaveDone "Log.Level" (JStr "debug")
           (FileHolds log_doc) _ (UpdatedReply "Log.Level" (JStr "debug"))).
  - reflexivity.
  - reflexivity.
  - vm_compute. reflexivity.
  - reflexivity.
Defined.

(** *** Services and outbounds *)

(** A service that was added cannot be added again: the second request is
    refused with "already exists" and the file stays as the first one
    left it. *)
Theorem add_service_twice os os' service file file1 r :
  add_service os service file = (file1, Return r) →
  add_service os' service file1
  = (file1, Raised (HTTPException 400 (ServiceExists (Name service)))).
Proof. apply add_entry_twice, service_has_name. Qed.

Lemma add_service_twice_witness :
  ∃ file1,
    add_service SaveDone lobby_service fresh_file
    = (file1, Return (ServiceAdded "lobby"))
    ∧ add_service SaveDone lobby_service file1
      = (file1, Raised (HTTPException 400 (ServiceExists "lobby"))).
Proof.
  eexists. split; [reflexivity|].
  apply (add_service_twice SaveDone SaveDone lobby_service fresh_file _
           (ServiceAdded "lobby")).
  reflexivity.
Defined.

(** A service that is added goes to the end of "Services" (a list that is
    made when the key is missing) and nothing else in the file changes;
    its name was not in the list, so names that were all different stay
    all different. *)
Theorem add_service_appends os service file file' r :
  add_service os service file = (file', Return r) →
  ∃ config entries,
    file = FileHolds (JDict config)
    ∧ default (JList []) (config !! "Services") = JList entries
    ∧ file' = FileHolds
                (JDict (<["Services" :=
                            JList (entries ++ [JDict (service_dict service)])]>
                          config))
    ∧ (Name service ∉ names_of entries)
    ∧ (NoDup (names_of entries) →
       NoDup (names_of (entries ++ [JDict (service_dict service)]))).
Proof.
  intros Hadd.
  destruct (add_entry_ok _ _ _ _ _ _ _ _ _ Hadd)
    as (config & entries & -> & Hsec & Hfree & -> & -> & ->).
  exists config, entries. apply name_taken_false in Hfree.
  split_and!; try done.
  intros Hnodup. rewrite names_of_app.
  rewrite (has_name_true _ _ (service_has_name service)).
  apply NoDup_app. split_and!; [done | | apply NoDup_singleton].
  intros n Hn ->%list_elem_of_singleton. done.
Qed.

Lemma add_service_appends_witness :
  ∃ config entries,
    fresh_file = FileHolds (JDict config)
    ∧ default (JList []) (config !! "Services") = JList entries
    ∧ (add_service SaveDone lobby_service fresh_file).1
      = FileHolds
          (JDict (<["Services" :=
                      JList (entries ++ [JDict (service_dict lobby_service)])]>
                    config))
    ∧ (Name lobby_service ∉ names_of entries)
    ∧ (NoDup (names_of entries) →
       NoDup (names_of (entries ++ [JDict (service_dict lobby_service)]))).
Proof.
  apply (add_service_appends SaveDone lobby_service fresh_file _
           (ServiceAdded "lobby")).
  reflexivity.
Defined.

(** Deleting a service right after adding it gives back the list of
    services there was, and the very file when it had a "Services"
    list. *)
Theorem add_then_delete_service os service file file1 r :
  add_service os service file = (file1, Return r) →
  ∃ config entries,
    file = FileHolds (JDict config)
    ∧ default (JList []) (config !! "Services") = JList entries
    ∧ delete_service SaveDone (Name service) file1
      = (FileHolds (JDict (<["Services" := JList entries]> config)),
         Return (ServiceDeleted (Name service)))
    ∧ (is_Some (config !! "Services") →
       delete_service SaveDone (Name service) file1
       = (file, Return (ServiceDeleted (Name service)))).
Proof.
  intros Hadd.
  destruct (add_then_delete_entry _ _ _ _ _ _ NoServices
              (ServiceNotFound (Name service)) (ServiceDeleted (Name service))
              _ _ _ (service_has_name service) Hadd)
    as (config & entries & -> & Hsec & Hdel).
  exists config, entries. split_and!; try done.
  intros [sv Hsv]. unfold delete_service. rewrite Hdel.
  rewrite Hsv in Hsec. simpl in Hsec. subst sv. by rewrite insert_id.
Qed.

Lemma add_then_delete_service_witness :
  delete_service SaveDone "lobby"
    (add_service SaveDone lobby_service fresh_file).1
  = (fresh_file, Return (ServiceDeleted "lobby")).
Proof.
  destruct (add_then_delete_service SaveDone lobby_service fresh_file _
              (ServiceAdded "lobby") eq_refl)
    as (config & entries & Hfile & _ & _ & Hsame).
  injection Hfile as <-. apply Hsame. by eexists.
Defined.

(** A delete that succeeds writes under "Services" exactly the entries
    for which [s.get("Name") != service_name], in their order: every
    service of that name is removed and every other entry is kept, also
    one without a name or with a name that is no string.  All entries
    were dictionaries, at least one had the name, and nothing else in the
    file changes. *)
Theorem delete_service_removes os service_name file file' r :
  delete_service os service_name file = (file', Return r) →
  ∃ config entries kept,
    file = FileHolds (JDict config)
    ∧ config !! "Services" = Some (JList entries)
    ∧ file' = FileHolds (JDict (<["Services" := JList kept]> config))
    ∧ r = ServiceDeleted service_name
    ∧ forallb is_dict entries = true
    ∧ kept = List.filter (other_name service_name) entries
    ∧ kept `sublist_of` entries
    ∧ names_of kept = filter (fun n => n ≠ service_name) (names_of entries)
    ∧ service_name ∈ names_of entries
    ∧ service_name ∉ names_of kept.
Proof.
  intros Hdel.
  destruct (delete_entry_ok _ _ _ _ _ _ _ _ _ Hdel)
    as (config & entries & kept & -> & Hsec & Hdrop & Hlen & -> & -> & ->).
  destruct (drop_named_kept _ _ _ Hdrop) as (Hsub & Hnames & Hiff).
  destruct (drop_named_filter _ _ _ Hdrop) as (Hdicts & Hkept).
  exists config, entries, kept. split_and!; try done.
  - destruct (decide (service_name ∈ names_of entries)) as [|Hnot]; [done|].
    by apply Hiff in Hnot.
  - rewrite Hnames. intros [Hne _]%list_elem_of_filter. done.
Qed.

Lemma delete_service_removes_witness :
  ∃ config entries kept,
    lobby_file = FileHolds (JDict config)
    ∧ config !! "Services" = Some (JList entries)
    ∧ FileHolds (JDict (<["Services" :=
                            JList [JDict {[ "Listen" := JInt 25570 ]};
                                   JDict {[ "Name" := JInt 7 ]}]]> lobby_config))
      = FileHolds (JDict (<["Services" := JList kept]> config))
    ∧ ServiceDeleted "lobby" = ServiceDeleted "lobby"
    ∧ forallb is_dict entries = true
    ∧ kept = List.filter (other_name "lobby") entries
    ∧ kept `sublist_of` entries
    ∧ names_of kept = filter (fun n => n ≠ "lobby") (names_of entries)
    ∧ "lobby" ∈ names_of entries
    ∧ "lobby" ∉ names_of kept.
Proof.
  apply (delete_service_removes SaveDone "lobby" lobby_file _
           (ServiceDeleted "lobby")).
  reflexivity.
Defined.

(** Deleting a name that no service has is refused with "not found" and
    leaves the file as it is. *)
Theorem delete_service_absent os service_name config entries :
  config !! "Services" = Some (JList entries) →
  Forall (fun entry => ∃ d, entry = JDict d) entries →
  service_name ∉ names_of entries →
  delete_service os service_name (FileHolds (JDict config))
  = (FileHolds (JDict config),
     Raised (HTTPException 404 (ServiceNotFound service_name))).
Proof.
  intros Hsec Hdicts Hnot.
  unfold delete_service, delete_entry, load_config, section_missing.
  rewrite Hsec. rewrite bool_decide_eq_false_2 by done.
  destruct (drop_named_dicts service_name entries Hdicts) as [kept Hdrop].
  rewrite Hdrop. destruct (drop_named_kept _ _ _ Hdrop) as (_ & _ & Hiff).
  apply Hiff in Hnot. rewrite Hnot. by rewrite Nat.eqb_refl.
Qed.

Lemma delete_service_absent_witness :
  delete_service SaveDone "hub" lobby_file
  = (lobby_file, Raised (HTTPException 404 (ServiceNotFound "hub"))).
Proof.
  apply (delete_service_absent SaveDone "hub" lobby_config
           [JDict (service_dict lobby_service);
            JDict {[ "Listen" := JInt 25570 ]};
            JDict {[ "Name" := JInt 7 ]}]).
  - reflexivity.
  - repeat (apply Forall_cons_2; [by eexists|]). apply Forall_nil_2.
  - change (names_of [JDict (service_dict lobby_service);
                      JDict {[ "Listen" := JInt 25570 ]};
                      JDict {[ "Name" := JInt 7 ]}])
      with ["lobby"].
    intros Hin. apply list_elem_of_singleton in Hin. discriminate Hin.
Defined.

(** An outbound that is added is stored with dictionaries under
    "Minecraft" and "ProxyOptions": the ones of the request, and the
    defaults where the request has none. *)
Theorem add_outbound_fills_defaults os outbound file file' r :
  add_outbound os outbound file = (file', Return r) →
  ∃ config entries stored,
    file' = FileHolds (JDict config)
    ∧ config !! "Outbounds" = Some (JList (entries ++ [JDict stored]))
    ∧ stored !! "Name" = Some (JStr (OutName outbound))
    ∧ stored !! "Minecraft"
      = Some (JDict (default default_minecraft (Minecraft outbound)))
    ∧ stored !! "ProxyOptions"
      = Some (JDict (default default_proxy_options (ProxyOptions outbound))).
Proof.
  intros Hadd.
  destruct (add_entry_ok _ _ _ _ _ _ _ _ _ Hadd)
    as (config & entries & -> & Hsec & Hfree & -> & -> & ->).
  eexists _, entries, (outbound_dict outbound).
  split_and!; [done | by rewrite lookup_insert_eq | | |];
    unfold outbound_dict.
  - by rewrite lookup_insert_eq.
  - rewrite !lookup_insert_ne by done. by rewrite lookup_insert_eq.
  - rewrite !lookup_insert_ne by done. by rewrite lookup_singleton_eq.
Qed.

Lemma add_outbound_fills_defaults_witness :
  ∃ config entries stored,
    (add_outbound SaveDone hub_outbound fresh_file).1 = FileHolds (JDict config)
    ∧ config !! "Outbounds" = Some (JList (entries ++ [JDict stored]))
    ∧ stored !! "Name" = Some (JStr "hub")
    ∧ stored !! "Minecraft" = Some (JDict default_minecraft)
    ∧ stored !! "ProxyOptions" = Some (JDict default_proxy_options).
Proof.
  apply (add_outbound_fills_defaults SaveDone hub_outbound fresh_file _
           (OutboundAdded "hub")).
  reflexivity.
Defined.

(** Deleting an outbound right after adding it gives back the file there
    was, when it had an "Outbounds" list. *)
Theorem add_then_delete_outbound os outbound config entries file1 r :
  config !! "Outbounds" = Some (JList entries) →
  add_outbound os outbound (FileHolds (JDict config)) = (file1, Return r) →
  delete_outbound SaveDone (OutName outbound) file1
  = (FileHolds (JDict config), Return (OutboundDeleted (OutName outbound))).
Proof.
  intros Hsec Hadd.
  destruct (add_then_delete_entry _ _ _ _ _ _ NoOutbounds
              (OutboundNotFound (OutName outbound))
              (OutboundDeleted (OutName outbound))
              _ _ _ (outbound_has_name outbound) Hadd)
    as (config' & entries' & [= <-] & Hsec' & Hdel).
  unfold delete_outbound. rewrite Hdel.
  rewrite Hsec in Hsec'. simpl in Hsec'. injection Hsec' as <-.
  by rewrite insert_id.
Qed.

Lemma add_then_delete_outbound_witness :
  delete_outbound SaveDone "hub"
    (add_outbound SaveDone hub_outbound fresh_file).1
  = (fresh_file, Return (OutboundDeleted "hub")).
Proof.
  apply (add_then_delete_outbound SaveDone hub_outbound _ [] _ (OutboundAdded "hub")).
  - reflexivity.
  - reflexivity.
Defined.

End ConfigFacts.

(** ** Part VII: properties of the log endpoints *)

Module LogFacts.
Import Logs.

(** *** The last lines of a list *)

Lemma last_lines_positive {A} (n : Z) (l : list A) :
  (0 < n)%Z →
  last_lines n l = drop (List.length l - Z.to_nat n) l
  ∧ List.length (last_lines n l) = Nat.min (Z.to_nat n) (List.length l).
Proof.
  intros Hn. unfold last_lines, slice_from.
  destruct (Z.ltb_spec n (Z.of_nat (List.length l))) as [Hlt|Hge].
  - destruct (Z.ltb_spec (- n) 0) as [_|?]; [|lia].
    replace (Z.to_nat (Z.max (Z.of_nat (List.length l) + - n) 0))
      with (List.length l - Z.to_nat n)%nat by lia.
    split; [done|]. rewrite length_drop. lia.
  - replace (List.length l - Z.to_nat n)%nat with 0%nat by lia.
    split; [done|]. lia.
Qed.

Lemma last_lines_nonpositive {A} (n : Z) (l : list A) :
  (n ≤ 0)%Z → last_lines n l = drop (Z.to_nat (- n)) l.
Proof.
  intros Hn. unfold last_lines, slice_from.
  destruct (Z.ltb_spec n (Z.of_nat (List.length l))) as [Hlt|Hge].
  - destruct (Z.ltb_spec (- n) 0) as [?|_]; [lia|].
    destruct (Z.min_spec (- n) (Z.of_nat (List.length l))) as [[_ ->]|[Hle ->]];
      [done|].
    rewrite Nat2Z.id, drop_all. symmetry. apply drop_ge. lia.
  - assert (List.length l = 0%nat) as Hlen by lia.
    destruct l; [|done]. by rewrite drop_nil.
Qed.

(** *** [tail_log] *)

(** Asked for a positive number of lines of a log file that is there,
    [tail_log] gives the last that many lines in their order - all of
    them when the file has no more -, and counts both. *)
Theorem tail_log_gives_last_lines disk filename f lines :
  filename ∈ log_files →
  disk !! filename = Some f →
  (0 < lines)%Z →
  let total := List.length (file_lines f) in
  tail_log true disk filename lines
  = Return (TailReply filename total (Nat.min (Z.to_nat lines) total)
              (drop (total - Z.to_nat lines) (file_lines f)) (file_size f)).
Proof.
  intros Hallowed Hfile Hlines. simpl. unfold tail_log.
  rewrite bool_decide_eq_true_2 by done. rewrite Hfile.
  destruct (last_lines_positive lines (file_lines f) Hlines) as [Heq Hlen].
  by rewrite Hlen, Heq.
Qed.

Lemma tail_log_gives_last_lines_witness :
  tail_log true two_logs "out.log" 2
  = Return (TailReply "out.log" 3 2 ["listening"; "closed"] 27).
Proof.
  apply (tail_log_gives_last_lines two_logs "out.log"
           (LogFile ["started"; "listening"; "closed"] 27) 2).
  - apply list_elem_of_here.
  - reflexivity.
  - lia.
Defined.

(** Asked for no lines, [tail_log] gives the whole file; asked for a
    negative number, it gives the file without that many lines at its
    start. *)
Theorem tail_log_nonpositive disk filename f lines :
  filename ∈ log_files →
  disk !! filename = Some f →
  (lines ≤ 0)%Z →
  let rest := drop (Z.to_nat (- lines)) (file_lines f) in
  tail_log true disk filename lines
  = Return (TailReply filename (List.length (file_lines f)) (List.length rest)
              rest (file_size f))
  ∧ (lines = 0%Z → rest = file_lines f).
Proof.
  intros Hallowed Hfile Hlines. simpl. unfold tail_log.
  rewrite bool_decide_eq_true_2 by done. rewrite Hfile.
  rewrite (last_lines_nonpositive lines (file_lines f) Hlines).
  split; [done|]. by intros ->.
Qed.

Lemma tail_log_nonpositive_witness :
  tail_log true two_logs "out.log" 0
  = Return (TailReply "out.log" 3 3 ["started"; "listening"; "closed"] 27).
Proof.
  apply (tail_log_nonpositive two_logs "out.log"
           (LogFile ["started"; "listening"; "closed"] 27) 0).
  - apply list_elem_of_here.
  - reflexivity.
  - lia.
Defined.

(** *** [get_logs] *)

(** [get_logs] answers for the four log files in their order; for a file
    it could read it gives the count of all lines, and the last 200 of
    them at most. *)
Theorem get_logs_last_200 readable disk :
  map fst (get_logs_files readable disk) = log_files
  ∧ ∀ name ls total sz,
      (name, LogLines ls total sz) ∈ get_logs_files readable disk →
      ∃ f, disk !! name = Some f
           ∧ total = List.length (file_lines f)
           ∧ ls = drop (total - 200) (file_lines f)
           ∧ (List.length ls ≤ 200)%nat.
Proof.
  split; [done|]. intros name ls total sz Hin.
  unfold get_logs_files in Hin. apply list_elem_of_fmap in Hin as (n & Heq & _).
  injection Heq as -> Hentry. unfold read_log in Hentry.
  destruct (disk !! n) as [f|]; [|done]. destruct (readable n); [|done].
  injection Hentry as -> -> ->. exists f.
  destruct (last_lines_positive 200 (file_lines f)) as [Heq Hlen]; [lia|].
  split_and!; [done | done | done | lia].
Qed.

Lemma get_logs_last_200_witness :
  ∃ f, two_logs !! "out.log" = Some f
       ∧ 3%nat = List.length (file_lines f)
       ∧ ["started"; "listening"; "closed"] = drop (3 - 200) (file_lines f)
       ∧ (List.length ["started"; "listening"; "closed"] ≤ 200)%nat.
Proof.
  apply (proj2 (get_logs_last_200 (fun _ => true) two_logs) "out.log" _ 3%nat 27%N).
  apply list_elem_of_here.
Defined.

(** *** [clear_logs] *)

Lemma clearable_insert writable disk name f n :
  is_Some (disk !! name) →
  clearable writable (<[name := f]> disk) n = clearable writable disk n.
Proof.
  intros Hsome. unfold clearable. f_equal. apply bool_decide_ext.
  destruct (decide (name = n)) as [<-|Hne].
  - rewrite lookup_insert_eq. split; [done | by eexists].
  - by rewrite lookup_insert_ne.
Qed.

Lemma clear_loop_spec writable names disk cleared failed disk' cleared' failed' :
  clear_loop writable names disk cleared failed = (disk', cleared', failed') →
  cleared' = cleared ++ List.filter (clearable writable disk) names
  ∧ ∀ n, disk' !! n
         = if bool_decide (n ∈ names) && clearable writable disk n
           then Some (LogFile [] 0)
           else disk !! n.
Proof.
  revert disk cleared failed.
  induction names as [|name rest IH]; intros disk cleared failed; simpl.
  - intros [= <- <- <-]. by rewrite app_nil_r.
  - destruct (disk !! name) as [f|] eqn:Hname.
    + destruct (writable name) eqn:Hw.
      * intros Hrest. destruct (IH _ _ _ Hrest) as [-> Hdisk].
        assert (Hclear : clearable writable disk name = true).
        { unfold clearable. rewrite Hw, bool_decide_eq_true_2; [done | by eexists]. }
        rewrite Hclear. split.
        -- rewrite <- app_assoc. simpl. do 2 f_equal.
           apply List.filter_ext. intros n.
           apply clearable_insert. by eexists.
        -- intros n. rewrite Hdisk.
           rewrite (clearable_insert writable disk name _ n) by (by eexists).
           destruct (decide (n = name)) as [->|Hne].
           ++ rewrite Hclear, lookup_insert_eq, andb_true_r.
              rewrite (bool_decide_eq_true_2 (name ∈ name :: rest))
                by apply list_elem_of_here.
              by destruct (bool_decide (name ∈ rest)).
           ++ rewrite lookup_insert_ne by done.
              rewrite (bool_decide_ext (n ∈ name :: rest) (n ∈ rest)); [done|].
              rewrite elem_of_cons. split; [by intros [?|?] | by right].
      * intros Hrest. destruct (IH _ _ _ Hrest) as [-> Hdisk].
        assert (Hclear : clearable writable disk name = false).
        { unfold clearable. by rewrite Hw, andb_false_r. }
        rewrite Hclear. split; [done|]. intros n. rewrite Hdisk.
        destruct (decide (n = name)) as [->|Hne].
        -- by rewrite Hclear, !andb_false_r.
        -- rewrite (bool_decide_ext (n ∈ name :: rest) (n ∈ rest)); [done|].
           rewrite elem_of_cons. split; [by intros [?|?] | by right].
    + intros Hrest. destruct (IH _ _ _ Hrest) as [-> Hdisk].
      assert (Hclear : clearable writable disk name = false).
      { unfold clearable. rewrite Hname.
        rewrite bool_decide_eq_false_2; [done | by intros [? ?]]. }
      rewrite Hclear. split; [done|]. intros n. rewrite Hdisk.
      destruct (decide (n = name)) as [->|Hne].
      * by rewrite Hclear, !andb_false_r.
      * rewrite (bool_decide_ext (n ∈ name :: rest) (n ∈ rest)); [done|].
        rewrite elem_of_cons. split; [by intros [?|?] | by right].
Qed.

Lemma clear_logs_inv writable disk :
  cleared_files (clear_logs writable disk).2
  = List.filter (clearable writable disk) log_files
  ∧ success (clear_logs writable disk).2
    = negb (forallb (fun n => negb (clearable writable disk n)) log_files)
  ∧ ∀ n, (clear_logs writable disk).1 !! n
         = if bool_decide (n ∈ log_files) && clearable writable disk n
           then Some (LogFile [] 0)
           else disk !! n.
Proof.
  unfold clear_logs.
  destruct (clear_loop writable log_files disk [] []) as [[disk' cleared] failed]
    eqn:Hloop.
  destruct (clear_loop_spec _ _ _ _ _ _ _ _ Hloop) as [Hcleared Hdisk].
  cbn [app] in Hcleared. subst cleared. split_and!; [| |done].
  - by destruct (List.filter _ log_files).
  - simpl.
    destruct (clearable writable disk "out.log"),
             (clearable writable disk "zbproxy.log"),
             (clearable writable disk "error.log"),
             (clearable writable disk "access.log"); done.
Qed.

(** [clear_logs] empties exactly the log files that are there and can be
    written, names them in the order of the list, and touches no other
    file; it answers success exactly when it emptied one. *)
Theorem clear_logs_empties_writable writable disk :
  cleared_files (clear_logs writable disk).2
  = List.filter (clearable writable disk) log_files
  ∧ (success (clear_logs writable disk).2 = true
     ↔ ∃ n, n ∈ log_files ∧ clearable writable disk n = true)
  ∧ ∀ n, (clear_logs writable disk).1 !! n
         = if bool_decide (n ∈ log_files) && clearable writable disk n
           then Some (LogFile [] 0)
           else disk !! n.
Proof.
  destruct (clear_logs_inv writable disk) as (Hcleared & Hsuccess & Hdisk).
  split_and!; [done | | done].
  rewrite Hsuccess, negb_true_iff. split.
  - intros Hnot. apply not_true_iff_false in Hnot.
    destruct (existsb (clearable writable disk) log_files) eqn:Hex.
    + apply existsb_exists in Hex as (n & Hin & Hn).
      exists n. split; [by apply list_elem_of_In | done].
    + exfalso. apply Hnot. apply forallb_forall. intros n Hin.
      apply negb_true_iff. apply not_true_iff_false. intros Hn.
      assert (existsb (clearable writable disk) log_files = true) as Hex'
        by (apply existsb_exists; eauto).
      congruence.
  - intros (n & Hin & Hn). apply not_true_iff_false. intros Hall.
    rewrite forallb_forall in Hall.
    apply list_elem_of_In in Hin. specialize (Hall n Hin).
    by rewrite Hn in Hall.
Qed.

Lemma clear_logs_empties_writable_witness :
  ∃ n, n ∈ log_files ∧ clearable (fun _ => true) two_logs n = true.
Proof.
  apply (proj1 (proj1 (proj2 (clear_logs_empties_writable (fun _ => true) two_logs)))).
  reflexivity.
Defined.

(** A log file that [clear_logs] names as cleared reads as empty
    afterwards, whatever number of lines is asked for. *)
Theorem clear_then_tail writable disk n lines :
  n ∈ cleared_files (clear_logs writable disk).2 →
  tail_log true (clear_logs writable disk).1 n lines
  = Return (TailReply n 0 0 [] 0).
Proof.
  destruct (clear_logs_inv writable disk) as (-> & _ & Hdisk).
  intros Hin. apply list_elem_of_In, filter_In in Hin as [Hin Hclear].
  apply list_elem_of_In in Hin.
  unfold tail_log. rewrite bool_decide_eq_true_2 by done.
  rewrite Hdisk, Hclear, bool_decide_eq_true_2 by done. simpl.
  unfold last_lines, slice_from. simpl. rewrite !drop_nil.
  by destruct (lines <? Z.of_nat 0)%Z.
Qed.

Lemma clear_then_tail_witness :
  tail_log true (clear_logs (fun _ => true) two_logs).1 "out.log" 50
  = Return (TailReply "out.log" 0 0 [] 0).
Proof.
  apply (clear_then_tail (fun _ => true) two_logs "out.log" 50).
  vm_compute. apply list_elem_of_here.
Defined.

End LogFacts.

(** ** Part VIII: properties of the permission repair *)

Module PermissionFacts.
Import Supervisor Permissions.

Lemma chmod_755_low_bits mode : Z.land (chmod 493 mode) 511 = 493%Z.
Proof.
  unfold chmod. rewrite Z.land_lor_distr_l, <- Z.land_assoc.
  change (Z.land (Z.lnot 4095) 511) with 0%Z.
  by rewrite Z.land_0_r.
Qed.

Lemma chmod_755_executable mode : Z.land (chmod 493 mode) 73 = 73%Z.
Proof.
  unfold chmod. rewrite Z.land_lor_distr_l, <- Z.land_assoc.
  change (Z.land (Z.lnot 4095) 73) with 0%Z.
  by rewrite Z.land_0_r.
Qed.

Lemma chmod_755_twice mode : chmod 493 (chmod 493 mode) = chmod 493 mode.
Proof.
  unfold chmod. rewrite Z.land_lor_distr_l, <- Z.land_assoc.
  change (Z.land (Z.land 493 4095) (Z.lnot 4095)) with 0%Z.
  by rewrite Z.land_diag, Z.lor_0_r.
Qed.

(** After [fix_permissions] has succeeded the executable has mode 755
    with its file type as before; [start_zbproxy] then finds an execute
    bit and repairs nothing, and a second [fix_permissions] changes
    nothing and reports 755 as the old and the new mode. *)
Theorem fix_permissions_settles os w w' r :
  fix_permissions os w = (w', Return r) →
  ∃ mode,
    executable w' = Some mode
    ∧ new_permissions r = 493%Z
    ∧ Z.land mode 511 = 493%Z
    ∧ (∀ host, ensure_executable host mode = mode)
    ∧ fix_permissions ChmodDone w' = (w', Return (FixReply 493 493)).
Proof.
  unfold fix_permissions.
  destruct (executable w) as [current|] eqn:Hexe; [|done].
  destruct os; try done. intros [= <- <-].
  exists (chmod 493 current). simpl.
  split_and!; [done | apply chmod_755_low_bits | apply chmod_755_low_bits | |].
  - intros host. unfold ensure_executable. by rewrite chmod_755_executable.
  - unfold last_three_octal. rewrite chmod_755_twice, chmod_755_low_bits.
    unfold set_executable. simpl. done.
Qed.

Lemma fix_permissions_settles_witness :
  ∃ mode,
    executable (fix_permissions ChmodDone (World None [] (Some 33188%Z))).1 = Some mode
    ∧ 493%Z = 493%Z
    ∧ Z.land mode 511 = 493%Z
    ∧ (∀ host, ensure_executable host mode = mode)
    ∧ fix_permissions ChmodDone
        (fix_permissions ChmodDone (World None [] (Some 33188%Z))).1
      = ((fix_permissions ChmodDone (World None [] (Some 33188%Z))).1,
         Return (FixReply 493 493)).
Proof.
  apply (fix_permissions_settles ChmodDone (World None [] (Some 33188%Z)) _
           (FixReply 420 493)).
  reflexivity.
Defined.

End PermissionFacts.

(** ** Part IX: laws of the supervisor *)

Module SupervisorLaws.
Import Supervisor ProcessScan.

(** *** The scan *)

Lemma scan_spec procs :
  match scan procs with
  | Some proc =>
      ∃ before after,
        procs = before ++ proc :: after
        ∧ named_like_executable proc = true
        ∧ Forall (fun p => named_like_executable p = false) before
  | None => Forall (fun p => named_like_executable p = false) procs
  end.
Proof.
  induction procs as [|p rest IH]; simpl; [done|].
  assert (Hp : named_like_executable p
               = match name p with
                 | Some n => negb (String.eqb n "")
                             && contains (lower ZBPROXY_EXECUTABLE) (lower n)
                 | None => false
                 end) by done.
  destruct (name p) as [n|].
  - destruct (negb (String.eqb n "") && contains _ (lower n)).
    + exists [], rest. by split_and!.
    + destruct (scan rest) as [proc|].
      * destruct IH as (before & after & -> & Hnamed & Hbefore).
        exists (p :: before), after. split_and!; [done | done |].
        by apply Forall_cons.
      * by apply Forall_cons.
  - destruct (scan rest) as [proc|].
    + destruct IH as (before & after & -> & Hnamed & Hbefore).
      exists (p :: before), after. split_and!; [done | done |].
      by apply Forall_cons.
    + by apply Forall_cons.
Qed.

(** [find_zbproxy_process] gives the first running process whose name
    contains the executable's name, and nothing exactly when no running
    process has such a name. *)
Theorem find_first_match w :
  (∀ proc, find_zbproxy_process w = Some proc →
     ∃ before after,
       processes w = before ++ proc :: after
       ∧ named_like_executable proc = true
       ∧ Forall (fun p => named_like_executable p = false) before)
  ∧ (find_zbproxy_process w = None
     ↔ Forall (fun p => named_like_executable p = false) (processes w)).
Proof.
  unfold find_zbproxy_process. pose proof (scan_spec (processes w)) as Hspec.
  destruct (scan (processes w)) as [proc|].
  - split; [by intros ? [= <-]|]. split; [done|].
    destruct Hspec as (before & after & -> & Hnamed & _).
    intros Hall. apply Forall_app in Hall as [_ Hall].
    apply Forall_cons in Hall as [Hfalse _]. congruence.
  - split; [done|]. by split.
Qed.

Lemma find_first_match_witness :
  ∃ before after,
    processes crowded_world
    = before ++ Process 4242 (Some "ZBProxy-linux-amd64-v1") :: after
    ∧ named_like_executable (Process 4242 (Some "ZBProxy-linux-amd64-v1")) = true
    ∧ Forall (fun p => named_like_executable p = false) before.
Proof.
  apply (proj1 (find_first_match crowded_world)). reflexivity.
Defined.

(** *** Status *)

(** Asking for the status twice gives the same answer twice, and the
    second call changes nothing. *)
Theorem get_status_idempotent w :
  get_status (get_status w).1 = get_status w.
Proof.
  unfold get_status.
  destruct (tracked_alive w) as [child|] eqn:Halive; simpl.
  - by rewrite Halive.
  - destruct (find_zbproxy_process w) as [proc|] eqn:Hfound; simpl;
      unfold find_zbproxy_process in *; simpl; by rewrite Hfound.
Qed.

(** *** Start *)

(** [start_zbproxy] answers success exactly when no tracked child is
    alive, the scan finds nothing, the executable is there, and the child
    that was spawned is still running after the wait. *)
Theorem start_succeeds_iff os w :
  (∃ w1 r, start_zbproxy os w = (w1, Return r) ∧ success r = true)
  ↔ tracked_alive w = None
    ∧ find_zbproxy_process w = None
    ∧ is_Some (executable w)
    ∧ ∃ child, spawn os = Spawned child true.
Proof.
  unfold start_zbproxy. split.
  - intros (w1 & r & Hstart & Hsuccess).
    destruct (tracked_alive w); [by injection Hstart as <- <-|].
    destruct (find_zbproxy_process w); [by injection Hstart as <- <-|].
    destruct (executable w) as [mode|]; [|done].
    destruct (spawn os) as [| | |child [|]]; try done.
    split_and!; [done | done | by eexists | by eexists].
  - intros (-> & -> & [mode ->] & child & ->). by eexists _, _.
Qed.

Lemma start_succeeds_iff_witness :
  ∃ w1 r, start_zbproxy healthy_host idle_world = (w1, Return r)
          ∧ success r = true.
Proof.
  apply (proj2 (start_succeeds_iff healthy_host idle_world)).
  split_and!; [reflexivity | reflexivity | by eexists | by eexists].
Defined.

(** After a start that answered success, the status is "running" with
    the pid the start gave, and asking changes nothing. *)
Theorem start_then_status os w w1 r :
  start_zbproxy os w = (w1, Return r) → success r = true →
  ∃ child,
    res_pid r = Some child
    ∧ get_status w1
      = (w1, Response true (Some running_status) (Some child) MsgRunning).
Proof.
  unfold start_zbproxy.
  destruct (tracked_alive w); [by intros [= <- <-]|].
  destruct (find_zbproxy_process w); [by intros [= <- <-]|].
  destruct (executable w) as [mode|]; [|done].
  destruct (spawn os) as [| | |child [|]]; try done.
  intros [= <- <-] _. exists child. split; [done|].
  unfold get_status.
  rewrite (SupervisorFacts.tracked_alive_intro _ (MkPopen child)); [done | done |].
  simpl. rewrite fmap_app. apply elem_of_app. right. apply list_elem_of_here.
Qed.

Lemma start_then_status_witness :
  ∃ child,
    Some 4321 = Some child
    ∧ get_status (start_zbproxy healthy_host idle_world).1
      = ((start_zbproxy healthy_host idle_world).1,
         Response true (Some running_status) (Some child) MsgRunning).
Proof.
  apply (start_then_status healthy_host idle_world _
           (Response true None (Some 4321) MsgStarted));
    reflexivity.
Defined.

(** A start that does not answer success leaves the running processes as
    they were: no child of it stays behind. *)
Theorem failed_start_leaves_processes os w w1 o :
  start_zbproxy os w = (w1, o) →
  (∀ r, o = Return r → success r = false) →
  processes w1 = processes w.
Proof.
  unfold start_zbproxy.
  destruct (tracked_alive w); [by intros [= <- <-]|].
  destruct (find_zbproxy_process w); [by intros [= <- <-]|].
  destruct (executable w) as [mode|]; [|by intros [= <- <-]].
  destruct (spawn os) as [| | |child [|]]; try by intros [= <- <-].
  intros [= <- <-] Hfail. by specialize (Hfail _ eq_refl).
Qed.

Lemma failed_start_leaves_processes_witness :
  processes (start_zbproxy healthy_host external_world).1
  = processes external_world.
Proof.
  apply (failed_start_leaves_processes healthy_host external_world _
           (Return (Response false None None (MsgAlreadyRunningPid 4242)))).
  - reflexivity.
  - by intros r [= <-].
Defined.

(** *** Stop *)

Lemma running_removed w p :
  running (set_processes (remove_process p (processes w)) w) p = false.
Proof.
  unfold running, remove_process; simpl. apply bool_decide_eq_false_2.
  intros (x & Hpid & Hx)%list_elem_of_fmap.
  apply list_elem_of_filter in Hx as [Hne _]. by apply Hne.
Qed.

Lemma running_false_remove w p q :
  running w p = false →
  running (set_processes (remove_process q (processes w)) w) p = false.
Proof.
  intros Hnot.
  destruct (running (set_processes _ w) p) eqn:Hrun; [|done].
  apply SupervisorFacts.running_remove in Hrun. congruence.
Qed.

Lemma running_set_tracked t w p : running (set_tracked t w) p = running w p.
Proof. done. Qed.

Lemma tracked_alive_running w child :
  tracked_alive w = Some child → running w (popen_pid child) = true.
Proof.
  unfold tracked_alive. destruct (zbproxy_process w) as [c|]; [|done].
  destruct (running w (popen_pid c)) eqn:Hrun; [|done]. by intros [= <-].
Qed.

Lemma scan_running w proc :
  find_zbproxy_process w = Some proc → running w (pid proc) = true.
Proof.
  intros Hfound. apply SupervisorFacts.scan_found in Hfound as [Hin _].
  unfold running. apply bool_decide_eq_true_2.
  apply list_elem_of_fmap. by exists proc.
Qed.

Lemma stop_tracked_spec os w w1 stopped :
  stop_tracked os w = (w1, stopped) →
  (List.length stopped ≤ 1)%nat
  ∧ (∀ p, running w1 p = true → running w p = true)
  ∧ ∀ p, p ∈ stopped → running w p = true ∧ running w1 p = false.
Proof.
  unfold stop_tracked.
  destruct (tracked_alive w) as [child|] eqn:Halive.
  - apply tracked_alive_running in Halive.
    assert (Hgone : ∀ rest,
      (set_tracked None (set_processes (remove_process (popen_pid child)
                                          (processes w)) w), [popen_pid child])
      = (w1, rest) → rest = stopped →
      (List.length stopped ≤ 1)%nat
      ∧ (∀ p, running w1 p = true → running w p = true)
      ∧ ∀ p, p ∈ stopped → running w p = true ∧ running w1 p = false).
    { intros rest [= <- <-] <-. split_and!; [simpl; lia | |].
      - intros p. rewrite running_set_tracked. apply SupervisorFacts.running_remove.
      - intros p ->%list_elem_of_singleton. split; [done|].
        rewrite running_set_tracked. apply running_removed. }
    destruct (send_signal_ok os), (wait_ok os), (kill_ok os);
      intros Heq; try (by eapply Hgone);
      injection Heq as <- <-; (split_and!; [simpl; lia | done |]);
      by intros p Hp%not_elem_of_nil.
  - intros [= <- <-]. split_and!; [simpl; lia | done |].
    by intros p Hp%not_elem_of_nil.
Qed.

Lemma stopped_list_response stopped : stopped_list (stop_response stopped) = stopped.
Proof. by destruct stopped. Qed.

(** [stop_zbproxy] names at most two pids, the tracked child and one
    process of the scan, and each of them was running before the call.
    None of them is running after it when the process of the scan was
    waited for ([proc.terminate()] and [proc.wait(timeout=5)] returned),
    or when the process killed in the handler is gone by then; the kill
    itself is followed by no [wait]. *)
Theorem stop_names_what_it_stopped os w w' r :
  stop_zbproxy os w = (w', Return r) →
  (List.length (stopped_list r) ≤ 2)%nat
  ∧ (∀ p, p ∈ stopped_list r → running w p = true)
  ∧ ((proc_terminate os = TerminateReturns ∧ proc_wait_ok os = true)
     ∨ proc_killed_gone os = true →
     ∀ p, p ∈ stopped_list r → running w' p = false).
Proof.
  unfold stop_zbproxy.
  destruct (stop_tracked os w) as [w1 stopped] eqn:Htracked.
  destruct (stop_tracked_spec _ _ _ _ Htracked) as (Hlen & Hmono & Hstopped).
  unfold stop_found.
  destruct (find_zbproxy_process w1) as [proc|] eqn:Hfound.
  - pose proof (scan_running _ _ Hfound) as Hrun.
    assert (Hlen' : (List.length (stopped ++ [pid proc]) ≤ 2)%nat).
    { rewrite length_app; simpl; lia. }
    assert (Hnamed : ∀ p, p ∈ stopped ++ [pid proc] → running w p = true).
    { intros p [Hp| ->%list_elem_of_singleton]%elem_of_app;
        [by apply Hstopped | by apply Hmono]. }
    assert (Hgone : ∀ p, p ∈ stopped ++ [pid proc] →
      running (set_processes (remove_process (pid proc) (processes w1)) w1) p
      = false).
    { intros p [Hp| ->%list_elem_of_singleton]%elem_of_app.
      - by apply running_false_remove, Hstopped.
      - apply running_removed. }
    assert (Hlen0 : (List.length stopped ≤ 2)%nat) by lia.
    assert (Hwas : ∀ p, p ∈ stopped → running w p = true)
      by (intros p Hp; by apply Hstopped).
    assert (Hnow : ∀ p, p ∈ stopped → running w1 p = false)
      by (intros p Hp; by apply Hstopped).
    destruct (proc_terminate os), (proc_wait_ok os), (proc_kill_ok os),
      (proc_killed_gone os);
      intros [= <- <-]; rewrite stopped_list_response;
      (split_and!; [done | done |]); try done;
      by intros [[? ?]|?].
  - intros [= <- <-]. rewrite stopped_list_response.
    split_and!; [lia | by intros p Hp; apply Hstopped |].
    intros _ p Hp. by apply Hstopped.
Qed.

Lemma stop_names_what_it_stopped_witness :
  (List.length [4242] ≤ 2)%nat
  ∧ (∀ p, p ∈ [4242] → running external_world p = true)
  ∧ (∀ p, p ∈ [4242] → running idle_world p = false).
Proof.
  destruct (stop_names_what_it_stopped calm_host external_world idle_world
              (Response true None None (MsgStopped [4242])) eq_refl)
    as (Hlen & Hwas & Hnow).
  split_and!; [exact Hlen | exact Hwas |].
  apply Hnow. left. split; reflexivity.
Defined.

(** One call of [stop_zbproxy] stops one process of the scan only: when
    no tracked child is alive and a second process has the executable's
    name, some such process is still there after the call, however it
    ends, and the status is still "running, started outside". *)
Theorem stop_leaves_second_instance os w first second w' o :
  tracked_alive w = None →
  find_zbproxy_process w = Some first →
  scan (remove_process (pid first) (processes w)) = Some second →
  stop_zbproxy os w = (w', o) →
  ∃ left,
    find_zbproxy_process w' = Some left
    ∧ get_status w'
      = (set_tracked None w',
         Response true (Some running_status) (Some (pid left)) MsgRunningExternal).
Proof.
  intros Hdead Hfirst Hsecond Hstop.
  pose proof (SupervisorFacts.stop_zbproxy_clears _ _ _ _ Hstop) as Hdead'.
  assert (Hleft : ∃ left, find_zbproxy_process w' = Some left).
  { revert Hstop. unfold stop_zbproxy, stop_tracked, stop_found.
    rewrite Hdead, Hfirst.
    destruct (proc_terminate os), (proc_wait_ok os), (proc_kill_ok os),
      (proc_killed_gone os);
      intros [= <- _]; by eexists. }
  destruct Hleft as [left Hleft]. exists left. split; [done|].
  unfold get_status. by rewrite Hdead', Hleft.
Qed.

Lemma stop_leaves_second_instance_witness :
  ∃ left,
    find_zbproxy_process (stop_zbproxy calm_host crowded_world).1 = Some left
    ∧ get_status (stop_zbproxy calm_host crowded_world).1
      = (set_tracked None (stop_zbproxy calm_host crowded_world).1,
         Response true (Some running_status) (Some (pid left)) MsgRunningExternal).
Proof.
  apply (stop_leaves_second_instance calm_host crowded_world
           (Process 4242 (Some "ZBProxy-linux-amd64-v1"))
           (Process 4343 (Some "zbproxy-linux-amd64-v1-debug"))
           _ (stop_zbproxy calm_host crowded_world).2);
    reflexivity.
Defined.

(** *** Restart *)

(** A restart that answers success gives the pid of a child spawned by
    its own start, and that child is the tracked one and alive. *)
Theorem restart_success_tracks_child os1 os2 w w2 r :
  restart_zbproxy os1 os2 w = (w2, Return r) → success r = true →
  ∃ child,
    res_pid r = Some child
    ∧ spawn os2 = Spawned child true
    ∧ tracked_alive w2 = Some (MkPopen child).
Proof.
  unfold restart_zbproxy.
  destruct (stop_zbproxy os1 w) as [w1 [stop_result|e]]; [|done].
  unfold start_zbproxy.
  destruct (tracked_alive w1); [by intros [= <- <-]|].
  destruct (find_zbproxy_process w1); [by intros [= <- <-]|].
  destruct (executable w1) as [mode|]; [|done].
  destruct (spawn os2) as [| | |child [|]]; try done.
  simpl. intros [= <- <-] _. exists child. split_and!; [done | done |].
  apply SupervisorFacts.tracked_alive_intro; [done|].
  simpl. rewrite fmap_app. apply elem_of_app. right. apply list_elem_of_here.
Qed.

Lemma restart_success_tracks_child_witness :
  ∃ child,
    Some 4321 = Some child
    ∧ spawn healthy_host = Spawned child true
    ∧ tracked_alive (restart_zbproxy calm_host healthy_host external_world).1
      = Some (MkPopen child).
Proof.
  apply (restart_success_tracks_child calm_host healthy_host external_world _
           (Response true None (Some 4321) MsgRestarted));
    reflexivity.
Defined.

End SupervisorLaws.
